(** * uniLsp: the LSP diagnostic client (tools/lsp_tool)

    A shallow embedding of [tools/lsp_tool/utils.py] (the structural
    response validator) and [tools/lsp_tool/client.py] (the framed
    JSON-RPC transport), with the properties of both. *)

From Stdlib Require Import String Ascii.
From Stdlib Require Import List ZArith NArith Bool Lia.
From Stdlib Require Import SpecFloat DecimalString.
From Stdlib Require Import Permutation Sorted.
Import ListNotations.

Local Open Scope Z_scope.
Set Warnings "-register-all".
Set Warnings "-notation-overridden".
Set Warnings "-notation-incompatible-prefix".

(** ** Python values *)

(** A Python [str] is a sequence of Unicode code points. *)
Definition pystr := list N.

(** An ASCII literal of the source, as a [pystr]. *)
Definition lit (s : string) : pystr :=
  map N_of_ascii (list_ascii_of_string s).

Fixpoint pystr_eqb (a b : pystr) : bool :=
  match a, b with
  | [], [] => true
  | x :: a', y :: b' => N.eqb x y && pystr_eqb a' b'
  | _, _ => false
  end.

(** The values [json.loads] produces and [json.dumps] consumes.  A [dict]
    keeps its items in insertion order; its keys are [str]. *)
Inductive pyval :=
| PNone
| PBool (b : bool)
| PInt (z : Z)
| PFloat (f : spec_float)
| PStr (s : pystr)
| PList (l : list pyval)
| PDict (d : list (pystr * pyval)).

(** [d.get(k)]: [None] stands for Python's default [None] of a missing key. *)
Fixpoint dict_get (k : pystr) (d : list (pystr * pyval)) : option pyval :=
  match d with
  | [] => None
  | (k', v) :: d' => if pystr_eqb k k' then Some v else dict_get k d'
  end.

(** [k in d] for a dict. *)
Definition dict_has (k : pystr) (d : list (pystr * pyval)) : bool :=
  existsb (pystr_eqb k) (map fst d).

Definition float_is_zero (f : spec_float) : bool :=
  match f with
  | S754_zero _ => true
  | _ => false
  end.

(** Python truthiness, [bool(v)]. *)
Definition truthy (v : pyval) : bool :=
  match v with
  | PNone => false
  | PBool b => b
  | PInt z => negb (Z.eqb z 0)
  | PFloat f => negb (float_is_zero f)
  | PStr s => match s with [] => false | _ => true end
  | PList l => match l with [] => false | _ => true end
  | PDict d => match d with [] => false | _ => true end
  end.

(** [type(v).__name__] *)
Definition type_name (v : pyval) : pystr :=
  match v with
  | PNone => lit "NoneType"
  | PBool _ => lit "bool"
  | PInt _ => lit "int"
  | PFloat _ => lit "float"
  | PStr _ => lit "str"
  | PList _ => lit "list"
  | PDict _ => lit "dict"
  end.

(** [a.startswith(p)] *)
Fixpoint startswith (p a : pystr) : bool :=
  match p, a with
  | [], _ => true
  | x :: p', y :: a' => N.eqb x y && startswith p' a'
  | _ :: _, [] => false
  end.

(** [p in a] for two strings: [p] occurs as a contiguous run of [a]. *)
Fixpoint substring (p a : pystr) : bool :=
  startswith p a ||
  match a with
  | [] => false
  | _ :: a' => substring p a'
  end.

(** ** Exceptions and results *)

Inductive exn :=
| TypeError
| ConnectionError (msg : pystr)
| OSError
| TimeoutError
| UnicodeDecodeError
| ValueError
| IndexError
| UnicodeEncodeError
| JSONDecodeError.

Inductive outcome (A : Type) :=
| Return (a : A)
| Raise (e : exn).
Arguments Return {A} a.
Arguments Raise {A} e.

Definition bind {A B} (m : outcome A) (k : A -> outcome B) : outcome B :=
  match m with
  | Return a => k a
  | Raise e => Raise e
  end.

Notation "x <- m ;; k" := (bind m (fun x => k))
  (at level 61, m at next level, right associativity).

(** ** utils.py: the response validator *)

(** A schema descriptor as the descriptor table writes them: a dict literal
    with any of the keys [nullable], [type], [itemFields], [requiredFields];
    [None] is a key the literal leaves out. *)
Record Schema := {
  nullable : option bool;
  type : option pystr;
  itemFields : option (list pystr);
  requiredFields : option (list pystr)
}.

(** [field in item], [field] a [str]: key membership in a dict, element
    membership in a list, substring test in a str; the other values are not
    containers and Python raises [TypeError]. *)
Definition contains (item : pyval) (field : pystr) : outcome bool :=
  match item with
  | PDict d => Return (dict_has field d)
  | PList l =>
      Return (existsb (fun v => match v with
                                | PStr s => pystr_eqb s field
                                | _ => false
                                end) l)
  | PStr s => Return (substring field s)
  | _ => Raise TypeError
  end.

(** The loop [for field in fields: if field not in item: issues.append(...)]. *)
Fixpoint check_fields (prefix : pystr) (item : pyval) (fields : list pystr)
    (issues : list pystr) : outcome (list pystr) :=
  match fields with
  | [] => Return issues
  | field :: rest =>
      present <- contains item field ;;
      check_fields prefix item rest
        (if present then issues else issues ++ [prefix ++ field])
  end.

Section Validator.

(** Python's [str()] of a decoded value, used by the f-string of the
    error issue. *)
Variable py_str : pyval -> pystr.

Definition validate_schema (name : pystr) (result : list (pystr * pyval))
    (schema : Schema) : outcome (bool * list pystr) :=
  let issues : list pystr := [] in
  let error := match dict_get (lit "error") result with
               | Some e => e
               | None => PNone
               end in
  if truthy error then
    Return (false, [lit "Error response: " ++ py_str error])
  else
  let response := match dict_get (lit "result") result with
                  | Some r => r
                  | None => PNone
                  end in
  match response with
  | PNone =>
      if match nullable schema with Some b => b | None => false end
      then Return (true, [])
      else Return (false, [lit "Returned null but schema does not allow it"])
  | _ =>
      let expected_type := type schema in
      issues <-
        (if match expected_type with
            | Some t => pystr_eqb t (lit "array")
            | None => false
            end then
           match response with
           | PList l =>
               let item_fields := match itemFields schema with
                                  | Some fs => fs
                                  | None => []
                                  end in
               match l, item_fields with
               | item :: _, _ :: _ =>
                   check_fields (lit "Array item missing required field: ")
                     item item_fields issues
               | _, _ => Return issues
               end
           | _ =>
               Return (issues ++
                         [lit "Expected array, got " ++ type_name response])
           end
         else if match expected_type with
                 | Some t => pystr_eqb t (lit "object")
                 | None => false
                 end then
           match response with
           | PDict _ =>
               let required_fields := match requiredFields schema with
                                      | Some fs => fs
                                      | None => []
                                      end in
               check_fields (lit "Missing required field: ")
                 response required_fields issues
           | _ =>
               Return (issues ++
                         [lit "Expected object, got " ++ type_name response])
           end
         else Return issues) ;;
      Return (match issues with [] => true | _ => false end, issues)
  end.

End Validator.

(** ** tests/compliance.py: the descriptor table and its lookup *)

Definition object_schema (fields : list string) : Schema :=
  {| nullable := Some true; type := Some (lit "object");
     itemFields := None; requiredFields := Some (map lit fields) |}.

Definition array_schema (fields : list string) : Schema :=
  {| nullable := Some true; type := Some (lit "array");
     itemFields := Some (map lit fields); requiredFields := None |}.

Definition LSP_SCHEMAS : list (pystr * Schema) :=
  [ (lit "textDocument/hover", object_schema ["contents"%string]);
    (lit "textDocument/definition",
       object_schema ["uri"%string; "range"%string]);
    (lit "textDocument/references",
       array_schema ["uri"%string; "range"%string]);
    (lit "textDocument/documentSymbol",
       array_schema ["name"%string; "kind"%string; "range"%string;
                     "selectionRange"%string]);
    (lit "textDocument/signatureHelp", object_schema ["signatures"%string]);
    (lit "textDocument/codeAction", array_schema ["title"%string]);
    (lit "textDocument/formatting",
       array_schema ["range"%string; "newText"%string]);
    (lit "textDocument/inlayHint",
       array_schema ["position"%string; "label"%string]);
    (lit "textDocument/implementation",
       array_schema ["uri"%string; "range"%string]);
    (lit "workspace/symbol",
       array_schema ["name"%string; "kind"%string; "location"%string]);
    (lit "textDocument/typeDefinition",
       object_schema ["uri"%string; "range"%string]);
    (lit "textDocument/semanticTokens/full", object_schema ["data"%string]) ].

Fixpoint table_get (method : pystr) (table : list (pystr * Schema))
    : option Schema :=
  match table with
  | [] => None
  | (m, schema) :: table' =>
      if pystr_eqb method m then Some schema else table_get method table'
  end.

(** [{"nullable": True}], the descriptor [run] falls back on. *)
Definition default_schema : Schema :=
  {| nullable := Some true; type := None; itemFields := None;
     requiredFields := None |}.

(** [table.get(method, {"nullable": True})], as [run] looks a descriptor
    up. *)
Definition schema_for (table : list (pystr * Schema)) (method : pystr)
    : Schema :=
  match table_get method table with
  | Some schema => schema
  | None => default_schema
  end.

(** ** client.py: the transport *)

Definition bytes := list N.

(** The four bytes [\r\n\r\n] and the two of [\r\n]. *)
Definition CRLF : list N := [13; 10]%N.
Definition CRLFCRLF : list N := [13; 10; 13; 10]%N.

(** [str(n)] for an [int]. *)
Definition py_str_int (z : Z) : pystr :=
  lit (NilZero.string_of_int (Z.to_int z)).

(** *** str.encode('utf-8') and bytes.decode('utf-8') *)

Definition utf8_encode_cp (c : N) : option bytes :=
  (if c <? 128 then Some [c]
   else if c <? 2048 then Some [192 + c / 64; 128 + c mod 64]
   else if (55296 <=? c) && (c <=? 57343) then None
   else if c <? 65536 then
     Some [224 + c / 4096; 128 + (c / 64) mod 64; 128 + c mod 64]
   else if c <? 1114112 then
     Some [240 + c / 262144; 128 + (c / 4096) mod 64;
           128 + (c / 64) mod 64; 128 + c mod 64]
   else None)%N.

Fixpoint encode_utf8 (s : pystr) : outcome bytes :=
  match s with
  | [] => Return []
  | c :: s' =>
      match utf8_encode_cp c with
      | None => Raise UnicodeEncodeError
      | Some bs => rest <- encode_utf8 s' ;; Return (bs ++ rest)
      end
  end.

Definition is_cont (b : N) : bool := ((128 <=? b) && (b <=? 191))%N.

(** The strict decoder: overlong forms, surrogates and values above
    U+10FFFF are errors. *)
Fixpoint decode_utf8 (bs : bytes) : outcome pystr :=
  let cons_cp (c : N) (r : outcome pystr) := s <- r ;; Return (c :: s) in
  match bs with
  | [] => Return []
  | b0 :: r0 =>
      if (b0 <? 128)%N then cons_cp b0 (decode_utf8 r0)
      else
        match r0 with
        | b1 :: r1 =>
            if ((194 <=? b0) && (b0 <=? 223) && is_cont b1)%N then
              cons_cp ((b0 - 192) * 64 + (b1 - 128))%N (decode_utf8 r1)
            else
              match r1 with
              | b2 :: r2 =>
                  if ((224 <=? b0) && (b0 <=? 239) && is_cont b1 && is_cont b2
                      && negb ((b0 =? 224) && (b1 <? 160))
                      && negb ((b0 =? 237) && (160 <=? b1)))%N then
                    cons_cp ((b0 - 224) * 4096 + (b1 - 128) * 64
                             + (b2 - 128))%N (decode_utf8 r2)
                  else
                    match r2 with
                    | b3 :: r3 =>
                        if ((240 <=? b0) && (b0 <=? 244)
                            && is_cont b1 && is_cont b2 && is_cont b3
                            && negb ((b0 =? 240) && (b1 <? 144))
                            && negb ((b0 =? 244) && (144 <=? b1)))%N then
                          cons_cp ((b0 - 240) * 262144 + (b1 - 128) * 4096
                                   + (b2 - 128) * 64 + (b3 - 128))%N
                                  (decode_utf8 r3)
                        else Raise UnicodeDecodeError
                    | [] => Raise UnicodeDecodeError
                    end
              | [] => Raise UnicodeDecodeError
              end
        | [] => Raise UnicodeDecodeError
        end
  end.

(** *** json.dumps with its defaults (ensure_ascii=True, separators
    [", "] and [": "]) *)

Definition hex_digit (n : N) : N :=
  (if n <? 10 then 48 + n else 87 + n)%N.

(** [\uXXXX] *)
Definition u_escape (n : N) : pystr :=
  [92; 117; hex_digit ((n / 4096) mod 16); hex_digit ((n / 256) mod 16);
   hex_digit ((n / 16) mod 16); hex_digit (n mod 16)]%N.

(** One character of [py_encode_basestring_ascii]. *)
Definition escape_char (c : N) : pystr :=
  (if c =? 34 then [92; 34]
   else if c =? 92 then [92; 92]
   else if c =? 8 then [92; 98]
   else if c =? 12 then [92; 102]
   else if c =? 10 then [92; 110]
   else if c =? 13 then [92; 114]
   else if c =? 9 then [92; 116]
   else if (32 <=? c) && (c <=? 126) then [c]
   else if c <? 65536 then u_escape c
   else
     let n := c - 65536 in
     u_escape (N.lor 55296 (N.land (N.shiftr n 10) 1023))
       ++ u_escape (N.lor 56320 (N.land n 1023)))%N.

Definition encode_basestring_ascii (s : pystr) : pystr :=
  [34%N] ++ flat_map escape_char s ++ [34%N].

Section Transport.

(** Python built-ins the transport calls: [float.__repr__] of a finite
    float, [int()] of a [str] ([None]: [ValueError]) and [json.loads]
    ([None]: [JSONDecodeError]). *)
Variable float_repr : spec_float -> pystr.
Variable py_int : pystr -> option Z.
Variable json_loads : pystr -> option pyval.

Definition floatstr (f : spec_float) : pystr :=
  match f with
  | S754_nan => lit "NaN"
  | S754_infinity false => lit "Infinity"
  | S754_infinity true => lit "-Infinity"
  | _ => float_repr f
  end.

Fixpoint json_dumps (v : pyval) : pystr :=
  match v with
  | PNone => lit "null"
  | PBool true => lit "true"
  | PBool false => lit "false"
  | PInt z => py_str_int z
  | PFloat f => floatstr f
  | PStr s => encode_basestring_ascii s
  | PList l =>
      lit "[" ++
      (fix items (l : list pyval) : pystr :=
         match l with
         | [] => []
         | x :: rest =>
             json_dumps x ++
             match rest with
             | [] => []
             | _ :: _ => lit ", " ++ items rest
             end
         end) l ++ lit "]"
  | PDict d =>
      lit "{" ++
      (fix items (d : list (pystr * pyval)) : pystr :=
         match d with
         | [] => []
         | (k, x) :: rest =>
             encode_basestring_ascii k ++ lit ": " ++ json_dumps x ++
             match rest with
             | [] => []
             | _ :: _ => lit ", " ++ items rest
             end
         end) d ++ lit "}"
  end.

(** *** The socket

    What the peer will deliver is a script of chunks, one per arrival; the
    empty chunk is the peer closing the stream, and a script that has run
    out is a read that times out.  [outbound] is what [sendall] wrote. *)
Record socket := {
  connected : bool;
  inbound : list bytes;
  outbound : bytes
}.

Definition sendall (s : socket) (data : bytes) : outcome socket :=
  if connected s then
    Return {| connected := true; inbound := inbound s;
              outbound := outbound s ++ data |}
  else Raise OSError.

(** [sock.recv(n)]: at most [n] bytes of the next chunk. *)
Definition recv (s : socket) (n : nat) : outcome bytes * socket :=
  if connected s then
    match inbound s with
    | [] => (Raise TimeoutError, s)
    | [] :: _ => (Return [], s)
    | chunk :: rest =>
        (Return (firstn n chunk),
         {| connected := true;
            inbound := match skipn n chunk with
                       | [] => rest
                       | later => later :: rest
                       end;
            outbound := outbound s |})
    end
  else (Raise OSError, s).

(** *** LspClient *)

Record LspClient := {
  host : pystr;
  port : Z;
  sock : option socket;
  request_id : Z
}.

Definition __init__ (host : pystr) (port : Z) : LspClient :=
  {| host := host; port := port; sock := None; request_id := 0 |}.

(** What the network does to one [connect]: creating the socket fails,
    the connection attempt fails, or a peer answers with its script. *)
Inductive network :=
| SocketFails
| ConnectFails
| Connects (peer : list bytes).

Definition connect (self : LspClient) (net : network) : bool * LspClient :=
  match net with
  | SocketFails => (false, self)
  | ConnectFails =>
      (false,
       {| host := host self; port := port self;
          sock := Some {| connected := false; inbound := [];
                          outbound := [] |};
          request_id := request_id self |})
  | Connects peer =>
      (true,
       {| host := host self; port := port self;
          sock := Some {| connected := true; inbound := peer;
                          outbound := [] |};
          request_id := request_id self |})
  end.

Definition disconnect (self : LspClient) : LspClient :=
  match sock self with
  | Some _ =>
      {| host := host self; port := port self; sock := None;
         request_id := request_id self |}
  | None => self
  end.

Definition _send_message (s : socket) (message : pyval) : outcome socket :=
  let content := json_dumps message in
  let header :=
    lit "Content-Length: " ++ py_str_int (Z.of_nat (length content))
      ++ CRLFCRLF in
  let full_message := header ++ content in
  data <- encode_utf8 full_message ;;
  sendall s data.

(** [s.split(sep)] for a non-empty [sep]; [skip] counts the characters of
    a separator still to pass over. *)
Fixpoint split_from (sep : pystr) (skip : nat) (cur s : pystr)
    : list pystr :=
  match s with
  | [] => [cur]
  | c :: s' =>
      match skip with
      | S k => split_from sep k cur s'
      | O =>
          if startswith sep s
          then cur :: split_from sep (length sep - 1) [] s'
          else split_from sep 0 (cur ++ [c]) s'
      end
  end.

Definition split (sep s : pystr) : list pystr := split_from sep 0 [] s.

(** [str.isspace] of one character. *)
Definition is_space (c : N) : bool :=
  (((9 <=? c) && (c <=? 13)) || ((28 <=? c) && (c <=? 32))
   || (c =? 133) || (c =? 160) || (c =? 5760)
   || ((8192 <=? c) && (c <=? 8202)) || (c =? 8232) || (c =? 8233)
   || (c =? 8239) || (c =? 8287) || (c =? 12288))%N.

Fixpoint lstrip (s : pystr) : pystr :=
  match s with
  | c :: s' => if is_space c then lstrip s' else s
  | [] => []
  end.

Definition strip (s : pystr) : pystr := rev (lstrip (rev (lstrip s))).

(** The loop over the header lines, with its [break]. *)
Fixpoint scan_lines (lines : list pystr) : outcome Z :=
  match lines with
  | [] => Return 0
  | line :: rest =>
      if startswith (lit "Content-Length:") line then
        match split (lit ":") line with
        | _ :: v :: _ =>
            match py_int (strip v) with
            | Some n => Return n
            | None => Raise ValueError
            end
        | _ => Raise IndexError
        end
      else scan_lines rest
  end.

Definition parse_content_length (header : bytes) : outcome Z :=
  header_str <- decode_utf8 header ;;
  scan_lines (split CRLF header_str).

(** The header loop; each turn that goes on has taken one byte of the
    script, which bounds the turns. *)
Fixpoint read_header (fuel : nat) (s : socket) (header : bytes)
    : option (outcome bytes * socket) :=
  if substring CRLFCRLF header then Some (Return header, s)
  else
    match fuel with
    | O => None
    | S fuel' =>
        match recv s 1 with
        | (Raise e, s') => Some (Raise e, s')
        | (Return [], s') =>
            Some (Raise (ConnectionError (lit "Connection closed")), s')
        | (Return chunk, s') => read_header fuel' s' (header ++ chunk)
        end
    end.

(** The body loop. *)
Fixpoint read_body (fuel : nat) (s : socket) (content_length : Z)
    (body : bytes) : option (outcome bytes * socket) :=
  if Z.of_nat (length body) <? content_length then
    match fuel with
    | O => None
    | S fuel' =>
        match recv s (Z.to_nat (content_length - Z.of_nat (length body)))
        with
        | (Raise e, s') => Some (Raise e, s')
        | (Return [], s') =>
            Some (Raise (ConnectionError (lit "Connection closed")), s')
        | (Return chunk, s') =>
            read_body fuel' s' content_length (body ++ chunk)
        end
    end
  else Some (Return body, s).

(** The bytes the script still holds. *)
Definition pending (s : socket) : nat := length (concat (inbound s)).

Definition _receive_response (s : socket) : outcome pyval * socket :=
  match read_header (S (pending s)) s [] with
  | None => (Raise TimeoutError, s)
  | Some (Raise e, s1) => (Raise e, s1)
  | Some (Return header, s1) =>
      match parse_content_length header with
      | Raise e => (Raise e, s1)
      | Return content_length =>
          match read_body (S (pending s1)) s1 content_length [] with
          | None => (Raise TimeoutError, s1)
          | Some (Raise e, s2) => (Raise e, s2)
          | Some (Return body, s2) =>
              (text <- decode_utf8 body ;;
               match json_loads text with
               | Some response => Return response
               | None => Raise JSONDecodeError
               end, s2)
          end
      end
  end.

Definition set_sock (self : LspClient) (s : socket) : LspClient :=
  {| host := host self; port := port self; sock := Some s;
     request_id := request_id self |}.

(** [params or {}] *)
Definition or_empty (params : pyval) : pyval :=
  if truthy params then params else PDict [].

Definition send_request (self : LspClient) (method : pystr) (params : pyval)
    : outcome pyval * LspClient :=
  match sock self with
  | None => (Raise (ConnectionError (lit "Not connected")), self)
  | Some s =>
      let self :=
        {| host := host self; port := port self; sock := sock self;
           request_id := request_id self + 1 |} in
      let request :=
        PDict [(lit "jsonrpc", PStr (lit "2.0"));
               (lit "id", PInt (request_id self));
               (lit "method", PStr method);
               (lit "params", or_empty params)] in
      match _send_message s request with
      | Raise e => (Raise e, self)
      | Return s1 =>
          let (response, s2) := _receive_response s1 in
          (response, set_sock self s2)
      end
  end.

Definition send_notification (self : LspClient) (method : pystr)
    (params : pyval) : outcome unit * LspClient :=
  match sock self with
  | None => (Raise (ConnectionError (lit "Not connected")), self)
  | Some s =>
      let notification :=
        PDict [(lit "jsonrpc", PStr (lit "2.0"));
               (lit "method", PStr method);
               (lit "params", or_empty params)] in
      match _send_message s notification with
      | Raise e => (Raise e, self)
      | Return s1 => (Return tt, set_sock self s1)
      end
  end.

End Transport.

(** ** A session: calls on one client, in order *)

Inductive call :=
| Request (method : pystr) (params : pyval)
| Notification (method : pystr) (params : pyval).


Section Session.

Variable float_repr : spec_float -> pystr.
Variable py_int : pystr -> option Z.
Variable json_loads : pystr -> option pyval.

(** Runs the calls in order, whatever each returns or raises, and lists
    the id each [send_request] put in its envelope: the counter as the
    call left it. *)
Fixpoint run (calls : list call) (self : LspClient)
    : list Z * LspClient :=
  match calls with
  | [] => ([], self)
  | Request method params :: rest =>
      let self1 :=
        snd (send_request float_repr py_int json_loads self method params)
      in
      let (ids, self2) := run rest self1 in
      (request_id self1 :: ids, self2)
  | Notification method params :: rest =>
      run rest (snd (send_notification float_repr self method params))
  end.

End Session.

(** ** Stand-ins for the built-ins, for concrete runs *)

(** [int()] on an optional sign followed by ASCII digits, where it agrees
    with Python's; [None] on anything else. *)
Fixpoint digits_value (acc : Z) (s : pystr) : option Z :=
  match s with
  | [] => Some acc
  | c :: s' =>
      if ((48 <=? c) && (c <=? 57))%N
      then digits_value (acc * 10 + (Z.of_N c - 48)) s'
      else None
  end.

Definition int_of_ascii (s : pystr) : option Z :=
  match s with
  | [] => None
  | 45%N :: (_ :: _) as d => option_map Z.opp (digits_value 0 d)
  | 43%N :: (_ :: _) as d => digits_value 0 d
  | _ => digits_value 0 s
  end.

(** [json.loads] on the two texts [null] and [{}] only. *)
Definition loads_small (text : pystr) : option pyval :=
  if pystr_eqb text (lit "null") then Some PNone
  else if pystr_eqb text (lit "{}") then Some (PDict [])
  else None.

(** [repr] of the floats [0.0] and [-0.0]; every other float is printed as
    [0.0], which no concrete run below relies on. *)
Definition repr_zero (f : spec_float) : pystr :=
  match f with
  | S754_zero true => lit "-0.0"
  | _ => lit "0.0"
  end.

(** ** Vocabulary of the statements *)

(** Every character is ASCII. *)
Definition ascii_only (s : pystr) : Prop := Forall (fun c => (c < 128)%N) s.

(** Settles [ascii_only] of a literal, character by character. *)
Ltac ascii_literal :=
  unfold ascii_only;
  repeat (apply Forall_cons; [reflexivity|]); apply Forall_nil.

(** A frame on the wire: the header line with [n], the blank line, the
    body. *)
Definition frame (n : Z) (body : bytes) : bytes :=
  lit "Content-Length: " ++ py_str_int n ++ CRLFCRLF ++ body.

(** A connected socket whose script is [script]. *)
Definition peer_socket (script : list bytes) (sent : bytes) : socket :=
  {| connected := true; inbound := script; outbound := sent |}.

(** [hdr] is a header block: it ends at the first [\r\n\r\n]. *)
Definition header_block (hdr : bytes) : Prop :=
  substring CRLFCRLF hdr = true /\ substring CRLFCRLF (removelast hdr) = false.

(** What [_receive_response] raises when a read returns no byte. *)
Definition connection_closed : exn := ConnectionError (lit "Connection closed").

(** Induction over [pyval], through the lists and the items of a dict. *)
Section PyvalInduction.

Variable P : pyval -> Prop.
Hypothesis HNone : P PNone.
Hypothesis HBool : forall b, P (PBool b).
Hypothesis HInt : forall z, P (PInt z).
Hypothesis HFloat : forall f, P (PFloat f).
Hypothesis HStr : forall s, P (PStr s).
Hypothesis HList : forall l, Forall P l -> P (PList l).
Hypothesis HDict :
  forall d, Forall (fun kv : pystr * pyval => P (snd kv)) d -> P (PDict d).

Fixpoint pyval_nested_ind (v : pyval) : P v :=
  match v with
  | PNone => HNone
  | PBool b => HBool b
  | PInt z => HInt z
  | PFloat f => HFloat f
  | PStr s => HStr s
  | PList l =>
      HList l
        ((fix all (l : list pyval) : Forall P l :=
            match l with
            | [] => Forall_nil P
            | x :: rest => Forall_cons x (pyval_nested_ind x) (all rest)
            end) l)
  | PDict d =>
      HDict d
        ((fix all (d : list (pystr * pyval))
            : Forall (fun kv : pystr * pyval => P (snd kv)) d :=
            match d with
            | [] => Forall_nil _
            | kv :: rest =>
                Forall_cons kv (pyval_nested_ind (snd kv)) (all rest)
            end) d)
  end.

End PyvalInduction.

(** ** utils.py: print_result *)

(** What a script can see raised: an exception of the core, or the
    [AttributeError] of calling a method on a value whose type has none
    (["'<of_type>' object has no attribute '<attribute>'"]). *)
Inductive raised :=
| Core (e : exn)
| AttributeError (of_type attribute : pystr).

Inductive attempt (A : Type) :=
| Done (a : A)
| Failed (e : raised).
Arguments Done {A} a.
Arguments Failed {A} e.

(** ['=' * 60] *)
Definition banner : pystr := repeat 61%N 60.

(** A value that is no container: [in] raises [TypeError] on it. *)
Definition is_scalar (v : pyval) : bool :=
  match v with
  | PNone | PBool _ | PInt _ | PFloat _ => true
  | _ => false
  end.

Section Printing.

(** [str()] of a value, and [json.dumps(v, indent=2, ensure_ascii=False)]. *)
Variable py_str : pyval -> pystr.
Variable dumps_pretty : pyval -> pystr.

(** Returns the lines printed, one per [print], and what the call returns
    or raises. *)
Definition print_result (name : pystr) (result : list (pystr * pyval))
    : list pystr * attempt bool :=
  let out := [[10%N] ++ banner; lit "  " ++ name; banner] in
  let error := match dict_get (lit "error") result with
               | Some e => e
               | None => PNone
               end in
  if truthy error then
    match error with
    | PDict d =>
        let code := match dict_get (lit "code") d with
                    | Some v => v
                    | None => PNone
                    end in
        let message := match dict_get (lit "message") d with
                       | Some v => v
                       | None => PNone
                       end in
        (out ++ [lit "[ERROR] Code: " ++ py_str code;
                 lit "        Message: " ++ py_str message],
         Done false)
    | _ => (out, Failed (AttributeError (type_name error) (lit "get")))
    end
  else
    let response := match dict_get (lit "result") result with
                    | Some r => r
                    | None => PNone
                    end in
    match response with
    | PNone => (out ++ [lit "[RESULT] null"], Done true)
    | _ =>
        let formatted := dumps_pretty response in
        let formatted :=
          if (2000 <? List.length formatted)%nat
          then firstn 2000 formatted ++ [10%N] ++ lit "... (truncated)"
          else formatted in
        (out ++ [lit "[RESULT]" ++ [10%N] ++ formatted], Done true)
    end.

End Printing.

(** ** The lifetime of one client *)

Inductive event :=
| Connect (net : network)
| Disconnect
| Call (c : call).

Section Lifetime.

Variable float_repr : spec_float -> pystr.
Variable py_int : pystr -> option Z.
Variable json_loads : pystr -> option pyval.

(** Runs [connect], [disconnect] and the calls in order, whatever each
    returns or raises, and lists the id of every request that got past the
    connection check (the others build no envelope). *)
Fixpoint lifetime (events : list event) (self : LspClient)
    : list Z * LspClient :=
  match events with
  | [] => ([], self)
  | Connect net :: rest => lifetime rest (snd (connect self net))
  | Disconnect :: rest => lifetime rest (disconnect self)
  | Call (Request method params) :: rest =>
      let self1 :=
        snd (send_request float_repr py_int json_loads self method params)
      in
      let (ids, final) := lifetime rest self1 in
      (match sock self with
       | Some _ => request_id self1 :: ids
       | None => ids
       end, final)
  | Call (Notification method params) :: rest =>
      lifetime rest (snd (send_notification float_repr self method params))
  end.

End Lifetime.

(** The characters [str(n)] is made of: the minus sign and the digits. *)
Definition digit_or_minus (c : N) : Prop :=
  c = 45%N \/ (48 <= c <= 57)%N.

(** ** tests/compliance.py: run *)

(** [sep.join(parts)] *)
Fixpoint join (sep : pystr) (parts : list pystr) : pystr :=
  match parts with
  | [] => []
  | [part] => part
  | part :: rest => part ++ sep ++ join sep rest
  end.

(** A passed response whose first array element is no object cannot be
    summarised: [response[0].keys()] raises. *)
Definition first_item_has_keys (response : pyval) : bool :=
  match response with
  | PList (PDict _ :: _) => true
  | PList (_ :: _) => false
  | _ => true
  end.

Module compliance.

Definition default_file : pystr :=
  lit "file:///f:/code/env/IntellijLsp/src/main/kotlin/com/frenchef/intellijlsp/handlers/WorkspaceSymbolHandler.kt".

Definition document (test_file : pystr) : pystr * pyval :=
  (lit "textDocument", PDict [(lit "uri", PStr test_file)]).

Definition at_position (line character : Z) : pyval :=
  PDict [(lit "line", PInt line); (lit "character", PInt character)].

Definition position (line character : Z) : pystr * pyval :=
  (lit "position", at_position line character).

Definition range (l0 c0 l1 c1 : Z) : pystr * pyval :=
  (lit "range",
   PDict [(lit "start", at_position l0 c0); (lit "end", at_position l1 c1)]).

(** The twelve probes, in the order [run] sends them. *)
Definition tests (test_file : pystr) : list (pystr * pyval) :=
  [ (lit "textDocument/hover",
       PDict [document test_file; position 11 10]);
    (lit "textDocument/definition",
       PDict [document test_file; position 17 20]);
    (lit "textDocument/references",
       PDict [document test_file; position 12 20;
              (lit "context",
               PDict [(lit "includeDeclaration", PBool true)])]);
    (lit "textDocument/documentSymbol", PDict [document test_file]);
    (lit "textDocument/signatureHelp",
       PDict [document test_file; position 21 55]);
    (lit "textDocument/codeAction",
       PDict [document test_file; range 12 0 12 50;
              (lit "context", PDict [(lit "diagnostics", PList [])])]);
    (lit "textDocument/formatting",
       PDict [document test_file;
              (lit "options",
               PDict [(lit "tabSize", PInt 4);
                      (lit "insertSpaces", PBool true)])]);
    (lit "textDocument/inlayHint",
       PDict [document test_file; range 0 0 30 0]);
    (lit "textDocument/implementation",
       PDict [document test_file; position 11 10]);
    (lit "workspace/symbol", PDict [(lit "query", PStr (lit "Handler"))]);
    (lit "textDocument/typeDefinition",
       PDict [document test_file; position 12 30]);
    (lit "textDocument/semanticTokens/full", PDict [document test_file]) ].

Section Run.

Variable float_repr : spec_float -> pystr.
Variable py_int : pystr -> option Z.
Variable json_loads : pystr -> option pyval.
Variable py_str : pyval -> pystr.
(** [str(e)] of a caught exception. *)
Variable exn_str : raised -> pystr.

(** One turn of the loop over the probes: the row it appends to [results]
    (method, passed, message) and the client after the request.  What it
    prints is left out; what printing can raise is not. *)
Definition check (client : LspClient) (method : pystr) (params : pyval)
    : (pystr * bool * pystr) * LspClient :=
  let (sent, client) :=
    send_request float_repr py_int json_loads client method params in
  (match sent with
   | Raise e => (method, false, exn_str (Core e))
   | Return (PDict result) =>
       let schema := schema_for LSP_SCHEMAS method in
       match validate_schema py_str method result schema with
       | Raise e => (method, false, exn_str (Core e))
       | Return (passed, issues) =>
           let response := match dict_get (lit "result") result with
                           | Some r => r
                           | None => PNone
                           end in
           let error := match dict_get (lit "error") result with
                        | Some e => e
                        | None => PNone
                        end in
           if truthy error then (method, false, py_str error)
           else if passed then
             match response with
             | PList (PDict _ :: _) => (method, true, lit "Compliant")
             | PList (item :: _) =>
                 (method, false,
                  exn_str (AttributeError (type_name item) (lit "keys")))
             | _ => (method, true, lit "Compliant")
             end
           else (method, false, join (lit "; ") issues)
       end
   | Return other =>
       (method, false,
        exn_str (AttributeError (type_name other) (lit "get")))
   end, client).

(** The loop [for method, params in tests]. *)
Fixpoint probe (client : LspClient) (todo : list (pystr * pyval))
    (results : list (pystr * bool * pystr))
    : list (pystr * bool * pystr) * LspClient :=
  match todo with
  | [] => (results, client)
  | (method, params) :: rest =>
      let (row, client) := check client method params in
      probe client rest (results ++ [row])
  end.

(** [run(client, args)] with [args.target_file]: the rows it has gathered
    when it returns, and the client as the [finally] clause leaves it. *)
Definition run (client : LspClient) (target_file : option pystr)
    (net : network) : list (pystr * bool * pystr) * LspClient :=
  let test_file :=
    match target_file with
    | Some (c :: f) => c :: f
    | _ => default_file
    end in
  let results : list (pystr * bool * pystr) := [] in
  let (connected, client) := connect client net in
  if negb connected then (results, disconnect client)
  else
    let (results, client) := probe client (tests test_file) results in
    (results, disconnect client).

End Run.

End compliance.

(** ** tests/resolve_action.py: ranking the code actions *)

Module resolve_action.

(** [(v or "")] for the value of [action.get(key)]. *)
Definition or_blank (v : option pyval) : pyval :=
  match v with
  | Some x => if truthy x then x else PStr []
  | None => PStr []
  end.

(** [v == "..."] for a value and a [str] literal. *)
Definition is_text (v : pyval) (text : pystr) : bool :=
  match v with
  | PStr s => pystr_eqb s text
  | _ => false
  end.

(** [action["data"]["actionType"]], through the guards of the source:
    [None] when [data] is no dict or has no such key. *)
Definition action_type_of (a : list (pystr * pyval)) : pyval :=
  let data := match dict_get (lit "data") a with
              | Some (PDict d) => d
              | _ => []
              end in
  match dict_get (lit "actionType") data with
  | Some t => t
  | None => PNone
  end.

Section Score.

(** [str.lower] *)
Variable py_lower : pystr -> pystr.

Definition _score_action (action : pyval) : attempt Z :=
  match action with
  | PDict a =>
      let title := or_blank (dict_get (lit "title") a) in
      let kind := or_blank (dict_get (lit "kind") a) in
      let action_type := action_type_of a in
      let score := 0 in
      let score :=
        if is_text action_type (lit "quickfix") then score + 100 else score in
      let score :=
        if is_text kind (lit "quickfix") then score + 10 else score in
      match title with
      | PStr title =>
          let low := py_lower title in
          let score :=
            if substring (lit "remove") low || substring (lit "delete") low
               || substring [31227; 38500]%N title
               || substring [21024; 38500]%N title
            then score + 20 else score in
          let score :=
            if substring (lit "val") low || substring (lit "var") low
            then score + 10 else score in
          let score :=
            if substring (lit "create test") low
               || substring [21019; 24314; 27979; 35797]%N title
            then score - 50 else score in
          Done score
      | other => Failed (AttributeError (type_name other) (lit "lower"))
      end
  | other => Failed (AttributeError (type_name other) (lit "get"))
  end.

(** The keys [sorted] computes, one call per element, in order. *)
Fixpoint keyed (l : list pyval) : attempt (list (Z * pyval)) :=
  match l with
  | [] => Done []
  | a :: rest =>
      match _score_action a with
      | Failed e => Failed e
      | Done k =>
          match keyed rest with
          | Failed e => Failed e
          | Done ks => Done ((k, a) :: ks)
          end
      end
  end.

(** A stable sort, greatest key first: an element goes before the elements
    that came after it and whose key is not greater. *)
Fixpoint insert_desc (x : Z * pyval) (l : list (Z * pyval))
    : list (Z * pyval) :=
  match l with
  | [] => [x]
  | y :: l' =>
      if fst y <=? fst x then x :: y :: l' else y :: insert_desc x l'
  end.

Definition sorted_desc (l : list (Z * pyval)) : list (Z * pyval) :=
  fold_right insert_desc [] l.

Definition has_data (a : pyval) : bool :=
  match a with
  | PDict d => truthy (match dict_get (lit "data") d with
                       | Some v => v
                       | None => PNone
                       end)
  | _ => false
  end.

Definition is_quickfix (a : pyval) : bool :=
  match a with
  | PDict d =>
      match dict_get (lit "data") d with
      | Some (PDict data) =>
          is_text (match dict_get (lit "actionType") data with
                   | Some t => t
                   | None => PNone
                   end) (lit "quickfix")
      | _ => false
      end
  | _ => false
  end.

(** [quickfixes or with_data or actions] *)
Definition candidates (actions : list pyval) : list pyval :=
  let with_data := filter has_data actions in
  let quickfixes := filter is_quickfix with_data in
  match quickfixes with
  | _ :: _ => quickfixes
  | [] => match with_data with
          | _ :: _ => with_data
          | [] => actions
          end
  end.

Definition _pick_candidates (actions : list pyval) : attempt (list pyval) :=
  match keyed (candidates actions) with
  | Failed e => Failed e
  | Done ks => Done (map snd (sorted_desc ks))
  end.

End Score.

End resolve_action.

(** * Properties *)

(** ** Strings *)

Lemma pystr_eqb_refl (a : pystr) : pystr_eqb a a = true.
Proof.
  induction a as [|x a IH]; simpl; [reflexivity|].
  now rewrite N.eqb_refl, IH.
Qed.

Lemma pystr_eqb_eq (a b : pystr) : pystr_eqb a b = true <-> a = b.
Proof.
  split.
  - revert b; induction a as [|x a IH]; intros [|y b]; simpl; try discriminate.
    + reflexivity.
    + intros H. apply andb_true_iff in H as [Hx Hab].
      apply N.eqb_eq in Hx. now rewrite Hx, (IH b Hab).
  - intros ->. apply pystr_eqb_refl.
Qed.

(** ** The validator *)

Section ValidatorFacts.

Variable py_str : pyval -> pystr.

(** The field loop over an object never raises: it appends, in the order
    of [fields], one issue for each name that is no key of the object. *)
Lemma check_fields_object (prefix : pystr) (d : list (pystr * pyval))
    (fields issues : list pystr) :
  check_fields prefix (PDict d) fields issues =
  Return (issues ++
          map (fun field => prefix ++ field)
              (filter (fun field => negb (dict_has field d)) fields)).
Proof.
  revert issues; induction fields as [|f fields IH]; intros issues; simpl.
  - now rewrite app_nil_r.
  - rewrite IH. destruct (dict_has f d); simpl.
    + reflexivity.
    + now rewrite <- app_assoc.
Qed.

(** A non-container item makes the first membership test raise. *)
Lemma check_fields_scalar (prefix : pystr) (item : pyval)
    (field : pystr) (fields issues : list pystr) :
  contains item field = Raise TypeError ->
  check_fields prefix item (field :: fields) issues = Raise TypeError.
Proof.
  intros H; simpl; now rewrite H.
Qed.

End ValidatorFacts.

(** C3, as stated, fails: an envelope that contains an [error] field whose
    value is falsy ([null], or the empty object) is not short-circuited.
    With [{"error": null}] or [{"error": {}}] and the permissive descriptor
    [{"nullable": True}] the verdict is [(True, [])], whatever [str()]
    prints. *)
Lemma error_field_falsy_passes :
  (fun py_str =>
     validate_schema py_str (lit "textDocument/hover")
       [(lit "error", PNone)] default_schema)
  = (fun _ => Return (true, []))
  /\
  (fun py_str =>
     validate_schema py_str (lit "textDocument/hover")
       [(lit "error", PDict [])] default_schema)
  = (fun _ => Return (true, [])).
Proof.
  split; reflexivity.
Qed.

(** C3, amended: for every envelope whose [error] field holds a truthy
    value (any non-empty error object, in particular) and every descriptor,
    [validate_schema] fails with exactly one issue, ["Error response: "]
    followed by [str()] of the error, whatever the descriptor allows and
    whatever [result] the envelope also carries. *)
Theorem validate_error_short_circuit
    (py_str : pyval -> pystr) (name : pystr)
    (result : list (pystr * pyval)) (schema : Schema) (e : pyval) :
  dict_get (lit "error") result = Some e ->
  truthy e = true ->
  validate_schema py_str name result schema
  = Return (false, [lit "Error response: " ++ py_str e]).
Proof.
  intros Hget Htruthy. unfold validate_schema.
  rewrite Hget, Htruthy. reflexivity.
Qed.

Lemma validate_error_short_circuit_witness :
  let e := PDict [(lit "code", PInt (-32601));
                  (lit "message", PStr (lit "not found"))] in
  let result := [(lit "result", PList []); (lit "error", e)] in
  let py_str := fun _ : pyval => lit "{'code': -32601, 'message': 'not found'}" in
  dict_get (lit "error") result = Some e /\
  truthy e = true /\
  validate_schema py_str (lit "workspace/symbol") result default_schema
  = Return (false, [lit "Error response: " ++ py_str e]).
Proof.
  cbv zeta.
  split; [reflexivity|].
  split; [reflexivity|].
  apply (validate_error_short_circuit
           (fun _ => lit "{'code': -32601, 'message': 'not found'}")
           (lit "workspace/symbol")
           [(lit "result", PList []);
            (lit "error", PDict [(lit "code", PInt (-32601));
                                 (lit "message", PStr (lit "not found"))])]
           default_schema
           (PDict [(lit "code", PInt (-32601));
                   (lit "message", PStr (lit "not found"))]));
    reflexivity.
Defined.

(** C6: for every envelope with no [error] field whose [result] is null or
    absent, [validate_schema] returns [(True, [])] when the descriptor's
    [nullable] flag is true and
    [(False, ["Returned null but schema does not allow it"])] when it is
    false. *)
Theorem validate_null_result
    (py_str : pyval -> pystr) (name : pystr)
    (result : list (pystr * pyval)) (schema : Schema) :
  dict_get (lit "error") result = None ->
  dict_get (lit "result") result = None
    \/ dict_get (lit "result") result = Some PNone ->
  (nullable schema = Some true ->
   validate_schema py_str name result schema = Return (true, []))
  /\
  (nullable schema = Some false ->
   validate_schema py_str name result schema
   = Return (false, [lit "Returned null but schema does not allow it"])).
Proof.
  intros Herr Hres. unfold validate_schema. rewrite Herr. simpl truthy. cbv iota.
  split; intros Hn; rewrite Hn; destruct Hres as [-> | ->]; reflexivity.
Qed.

Lemma validate_null_result_witness :
  let result := [(lit "jsonrpc", PStr (lit "2.0")); (lit "id", PInt 1);
                 (lit "result", PNone)] in
  let schema := object_schema ["contents"%string] in
  dict_get (lit "error") result = None /\
  (dict_get (lit "result") result = None
     \/ dict_get (lit "result") result = Some PNone) /\
  nullable schema = Some true /\
  validate_schema (fun _ => []) (lit "textDocument/hover") result schema
  = Return (true, []).
Proof.
  cbv zeta.
  split; [reflexivity|].
  split; [right; reflexivity|].
  split; [reflexivity|].
  apply (validate_null_result (fun _ => []) (lit "textDocument/hover")
           [(lit "jsonrpc", PStr (lit "2.0")); (lit "id", PInt 1);
            (lit "result", PNone)]
           (object_schema ["contents"%string])).
  - reflexivity.
  - right; reflexivity.
  - reflexivity.
Defined.

(** C7, as stated, fails: it covers every non-empty array, but the
    membership test [field not in item] needs a container.  With
    [{"result": [null]}] against the descriptor of
    [textDocument/references] the call raises [TypeError] and appends no
    issue, whatever [str()] prints. *)
Lemma array_item_null_raises :
  (fun py_str =>
     validate_schema py_str (lit "textDocument/references")
       [(lit "result", PList [PNone])]
       (array_schema ["uri"%string; "range"%string]))
  = (fun _ => Raise TypeError).
Proof.
  reflexivity.
Qed.

(** C7, amended: for every error-free envelope whose result is a non-empty
    array whose first element is an object, and every descriptor of array
    kind with a non-empty [itemFields], [validate_schema] looks at the first
    element only: the issues are
    ["Array item missing required field: <name>"], one per [itemFields]
    name that is no key of that element, in order, the later elements
    playing no part, and the verdict passes iff there is none; and a
    result that is neither null nor an array fails with the one issue
    ["Expected array, got <type>"]. *)
Theorem validate_array_first_item
    (py_str : pyval -> pystr) (name : pystr)
    (result : list (pystr * pyval)) (schema : Schema)
    (field : pystr) (fields : list pystr) :
  dict_get (lit "error") result = None ->
  type schema = Some (lit "array") ->
  itemFields schema = Some (field :: fields) ->
  (forall (item : list (pystr * pyval)) (later : list pyval),
     dict_get (lit "result") result = Some (PList (PDict item :: later)) ->
     let issues :=
       map (fun f => lit "Array item missing required field: " ++ f)
           (filter (fun f => negb (dict_has f item)) (field :: fields)) in
     validate_schema py_str name result schema
     = Return (match issues with [] => true | _ => false end, issues))
  /\
  (forall response : pyval,
     dict_get (lit "result") result = Some response ->
     response <> PNone ->
     (forall l, response <> PList l) ->
     validate_schema py_str name result schema
     = Return (false, [lit "Expected array, got " ++ type_name response])).
Proof.
  intros Herr Hty Hfields. split.
  - intros item later Hres issues. unfold validate_schema.
    rewrite Herr, Hres, Hty, Hfields. cbv beta iota zeta.
    simpl truthy. cbv iota. rewrite pystr_eqb_refl.
    rewrite check_fields_object. reflexivity.
  - intros response Hres Hnone Hlist. unfold validate_schema.
    rewrite Herr, Hres, Hty. simpl truthy. cbv iota. rewrite pystr_eqb_refl.
    destruct response; try reflexivity.
    + now elim Hnone.
    + now elim (Hlist l).
Qed.

Lemma validate_array_first_item_witness :
  let result :=
    [(lit "result",
      PList [PDict [(lit "name", PStr (lit "x"))]; PDict []; PInt 7])] in
  let schema := array_schema ["name"%string; "kind"%string] in
  dict_get (lit "error") result = None /\
  type schema = Some (lit "array") /\
  itemFields schema = Some [lit "name"; lit "kind"] /\
  validate_schema (fun _ => []) (lit "workspace/symbol") result schema
  = Return (false, [lit "Array item missing required field: kind"]).
Proof.
  cbv zeta.
  split; [reflexivity|].
  split; [reflexivity|].
  split; [reflexivity|].
  exact (proj1
           (validate_array_first_item (fun _ => []) (lit "workspace/symbol")
              [(lit "result",
                PList [PDict [(lit "name", PStr (lit "x"))]; PDict [];
                       PInt 7])]
              (array_schema ["name"%string; "kind"%string])
              (lit "name") [lit "kind"]
              eq_refl eq_refl eq_refl)
           [(lit "name", PStr (lit "x"))] [PDict []; PInt 7] eq_refl).
Defined.

(** C8, as stated, fails: a descriptor whose kind is neither array nor
    object is not refused.  With [{"result": 5}] against
    [{"nullable": False, "type": "scalar"}] the call returns the normal
    verdict [(True, [])]. *)
Lemma unknown_kind_returns_verdict :
  (fun py_str =>
     validate_schema py_str (lit "textDocument/hover")
       [(lit "result", PInt 5)]
       {| nullable := Some false; type := Some (lit "scalar");
          itemFields := None; requiredFields := None |})
  = (fun _ => Return (true, [])).
Proof.
  reflexivity.
Qed.

(** C8, amended: for every descriptor whose kind is neither array nor
    object (or is left out), [validate_schema] makes no check of the kind
    and returns a normal verdict: for an error-free envelope with a result
    that is not null it is [(True, [])], whatever [itemFields] and
    [requiredFields] say. *)
Theorem validate_unknown_kind
    (py_str : pyval -> pystr) (name : pystr)
    (result : list (pystr * pyval)) (schema : Schema) (response : pyval) :
  type schema <> Some (lit "array") ->
  type schema <> Some (lit "object") ->
  dict_get (lit "error") result = None ->
  dict_get (lit "result") result = Some response ->
  response <> PNone ->
  validate_schema py_str name result schema = Return (true, []).
Proof.
  intros Harr Hobj Herr Hres Hnone. unfold validate_schema.
  rewrite Herr, Hres. simpl truthy. cbv iota.
  assert (Ha : match type schema with
               | Some t => pystr_eqb t (lit "array")
               | None => false
               end = false).
  { destruct (type schema) as [t|]; [|reflexivity].
    destruct (pystr_eqb t (lit "array")) eqn:E; [|reflexivity].
    apply pystr_eqb_eq in E. subst t. now elim Harr. }
  assert (Ho : match type schema with
               | Some t => pystr_eqb t (lit "object")
               | None => false
               end = false).
  { destruct (type schema) as [t|]; [|reflexivity].
    destruct (pystr_eqb t (lit "object")) eqn:E; [|reflexivity].
    apply pystr_eqb_eq in E. subst t. now elim Hobj. }
  rewrite Ha, Ho.
  destruct response; try reflexivity. now elim Hnone.
Qed.

Lemma validate_unknown_kind_witness :
  let result := [(lit "result", PStr (lit "hover text"))] in
  let schema := {| nullable := Some true; type := Some (lit "string");
                   itemFields := Some [lit "uri"];
                   requiredFields := Some [lit "contents"] |} in
  type schema <> Some (lit "array") /\
  type schema <> Some (lit "object") /\
  dict_get (lit "error") result = None /\
  dict_get (lit "result") result = Some (PStr (lit "hover text")) /\
  PStr (lit "hover text") <> PNone /\
  validate_schema (fun _ => []) (lit "textDocument/hover") result schema
  = Return (true, []).
Proof.
  cbv zeta.
  split; [discriminate|].
  split; [discriminate|].
  split; [reflexivity|].
  split; [reflexivity|].
  split; [discriminate|].
  apply (validate_unknown_kind (fun _ => []) (lit "textDocument/hover")
           [(lit "result", PStr (lit "hover text"))]
           {| nullable := Some true; type := Some (lit "string");
              itemFields := Some [lit "uri"];
              requiredFields := Some [lit "contents"] |}
           (PStr (lit "hover text")));
    first [reflexivity | discriminate].
Defined.

(** C9: for every envelope with no [error] field whose [result] is null or
    absent, a descriptor without a [nullable] key is treated as
    non-nullable: the verdict is
    [(False, ["Returned null but schema does not allow it"])].  The
    validator itself has no permissive default: a method missing from the
    descriptor table passes on null only because the caller's lookup
    substitutes [{"nullable": True}]. *)
Theorem validate_nullable_missing
    (py_str : pyval -> pystr) (name : pystr)
    (result : list (pystr * pyval)) :
  dict_get (lit "error") result = None ->
  dict_get (lit "result") result = None
    \/ dict_get (lit "result") result = Some PNone ->
  (forall schema : Schema,
     nullable schema = None ->
     validate_schema py_str name result schema
     = Return (false, [lit "Returned null but schema does not allow it"]))
  /\
  (forall (table : list (pystr * Schema)) (method : pystr),
     table_get method table = None ->
     schema_for table method = default_schema /\
     nullable (schema_for table method) = Some true /\
     validate_schema py_str name result (schema_for table method)
     = Return (true, [])).
Proof.
  intros Herr Hres. split.
  - intros schema Hn. unfold validate_schema.
    rewrite Herr, Hn. simpl truthy. cbv iota.
    destruct Hres as [-> | ->]; reflexivity.
  - intros table method Hget. unfold schema_for. rewrite Hget.
    split; [reflexivity|]. split; [reflexivity|].
    unfold validate_schema. rewrite Herr. simpl truthy. cbv iota.
    destruct Hres as [-> | ->]; reflexivity.
Qed.

Lemma validate_nullable_missing_witness :
  let result := [(lit "id", PInt 3)] in
  let schema := {| nullable := None; type := Some (lit "object");
                   itemFields := None;
                   requiredFields := Some [lit "contents"] |} in
  dict_get (lit "error") result = None /\
  (dict_get (lit "result") result = None
     \/ dict_get (lit "result") result = Some PNone) /\
  validate_schema (fun _ => []) (lit "textDocument/hover") result schema
  = Return (false, [lit "Returned null but schema does not allow it"]) /\
  table_get (lit "textDocument/rename") LSP_SCHEMAS = None /\
  validate_schema (fun _ => []) (lit "textDocument/rename") result
    (schema_for LSP_SCHEMAS (lit "textDocument/rename"))
  = Return (true, []).
Proof.
  cbv zeta.
  pose proof (validate_nullable_missing (fun _ => [])) as H.
  split; [reflexivity|].
  split; [left; reflexivity|].
  split.
  - apply (proj1 (H (lit "textDocument/hover") [(lit "id", PInt 3)]
                    eq_refl (or_introl eq_refl))).
    reflexivity.
  - split; [reflexivity|].
    apply (proj2 (H (lit "textDocument/rename") [(lit "id", PInt 3)]
                    eq_refl (or_introl eq_refl))
             LSP_SCHEMAS (lit "textDocument/rename")).
    reflexivity.
Defined.

(** ** The request-id counter *)

Section CounterFacts.

Variable float_repr : spec_float -> pystr.
Variable py_int : pystr -> option Z.
Variable json_loads : pystr -> option pyval.

Local Abbreviation request := (send_request float_repr py_int json_loads).
Local Abbreviation notify := (send_notification float_repr).

(** Past the connection check a request takes the next id, whatever the
    send and the read then do, and the client keeps a socket. *)
Lemma send_request_counter (self : LspClient) (method : pystr)
    (params : pyval) :
  sock self <> None ->
  request_id (snd (request self method params)) = request_id self + 1
  /\ sock (snd (request self method params)) <> None.
Proof.
  intros Hs. unfold send_request.
  destruct (sock self) as [s|] eqn:E; [|now elim Hs].
  destruct (_send_message _ s _) as [s1|e]; simpl.
  - destruct (_receive_response _ _ s1) as [response s2]; simpl.
    split; [reflexivity|discriminate].
  - split; [reflexivity|discriminate].
Qed.



End CounterFacts.



(** C2, as stated, fails: [connect] never writes the counter.  A client
    answers one request (id 1), disconnects and connects again with
    success: the counter is still 1, and the next request gets id 2. *)
Lemma reconnect_keeps_counter :
  let peer := [lit "Content-Length: 4" ++ CRLFCRLF ++ lit "null"] in
  let c0 := snd (connect (__init__ (lit "127.0.0.1") 9999) (Connects peer)) in
  let first :=
    send_request repr_zero int_of_ascii loads_small c0 (lit "shutdown") PNone
  in
  let again := connect (disconnect (snd first)) (Connects peer) in
  fst first = Return PNone /\
  request_id (snd first) = 1 /\
  fst again = true /\
  request_id (snd again) = 1 /\
  fst (run repr_zero int_of_ascii loads_small
         [Request (lit "shutdown") PNone] (snd again)) = [2].
Proof.
  vm_compute. repeat split; reflexivity.
Qed.

(** C2, amended: [connect] leaves the request-id counter as it is, whatever
    the network does; the counter is 0 only by construction ([__init__]).
    So the first [send_request] after a successful [connect] gets the id
    after the counter's value before the [connect]: id 1 on a newly
    constructed client, and [k + 1] when [k] requests came before. *)
Theorem connect_keeps_counter
    (float_repr : spec_float -> pystr) (py_int : pystr -> option Z)
    (json_loads : pystr -> option pyval)
    (self : LspClient) (net : network) :
  request_id (snd (connect self net)) = request_id self
  /\ (forall h p, request_id (__init__ h p) = 0)
  /\ (forall peer method params,
        fst (connect self (Connects peer)) = true /\
        request_id
          (snd (send_request float_repr py_int json_loads
                  (snd (connect self (Connects peer))) method params))
        = request_id self + 1)
  /\ (forall h p peer method params,
        request_id
          (snd (send_request float_repr py_int json_loads
                  (snd (connect (__init__ h p) (Connects peer)))
                  method params))
        = 1).
Proof.
  split; [destruct net; reflexivity|].
  split; [reflexivity|].
  split.
  - intros peer method params. split; [reflexivity|].
    apply (send_request_counter float_repr py_int json_loads
             (snd (connect self (Connects peer))) method params).
    discriminate.
  - intros h p peer method params.
    apply (send_request_counter float_repr py_int json_loads
             (snd (connect (__init__ h p) (Connects peer))) method params).
    discriminate.
Qed.

(** ** Without a connection *)

Lemma init_no_socket (h : pystr) (p : Z) : sock (__init__ h p) = None.
Proof. reflexivity. Qed.

Lemma disconnect_no_socket (self : LspClient) :
  sock (disconnect self) = None.
Proof.
  unfold disconnect. destruct (sock self) eqn:E; [reflexivity|exact E].
Qed.



(** ** Framing of outgoing messages *)

Lemma ascii_only_app (a b : pystr) :
  ascii_only a -> ascii_only b -> ascii_only (a ++ b).
Proof.
  unfold ascii_only. intros Ha Hb. apply Forall_app. now split.
Qed.

Lemma decimal_digits_ascii (d : Decimal.uint) :
  ascii_only (lit (NilEmpty.string_of_uint d)).
Proof.
  unfold ascii_only, lit.
  induction d; simpl; try apply Forall_nil;
    (apply Forall_cons; [reflexivity|assumption]).
Qed.

Lemma py_str_int_ascii (z : Z) : ascii_only (py_str_int z).
Proof.
  unfold py_str_int, NilZero.string_of_int.
  assert (H : forall d, ascii_only (lit (NilZero.string_of_uint d))).
  { intros d. unfold NilZero.string_of_uint.
    destruct d; try apply decimal_digits_ascii. ascii_literal. }
  destruct (Z.to_int z) as [d|d].
  - apply H.
  - unfold ascii_only, lit in *. simpl.
    apply Forall_cons; [reflexivity|apply H].
Qed.

Lemma hex_digit_ascii (n : N) : (n < 16)%N -> (hex_digit n < 128)%N.
Proof.
  intros H. unfold hex_digit. destruct (n <? 10)%N; lia.
Qed.

Lemma u_escape_ascii (n : N) : ascii_only (u_escape n).
Proof.
  unfold ascii_only, u_escape.
  repeat (apply Forall_cons;
          [first [reflexivity
                 | apply hex_digit_ascii; apply N.mod_lt; discriminate]|]).
  apply Forall_nil.
Qed.

Lemma escape_char_ascii (c : N) : ascii_only (escape_char c).
Proof.
  unfold escape_char.
  repeat match goal with
         | |- ascii_only (if ?b then _ else _) => destruct b eqn:?
         end;
    try ascii_literal;
    try apply u_escape_ascii.
  - unfold ascii_only. apply Forall_cons; [|apply Forall_nil].
    match goal with
    | H : (_ && (c <=? 126)%N) = true |- _ =>
        apply andb_true_iff in H as [_ H]; apply N.leb_le in H; lia
    end.
  - apply ascii_only_app; apply u_escape_ascii.
Qed.

Lemma encode_basestring_ascii_ascii (s : pystr) :
  ascii_only (encode_basestring_ascii s).
Proof.
  unfold encode_basestring_ascii.
  apply ascii_only_app; [ascii_literal|].
  apply ascii_only_app; [|ascii_literal].
  induction s as [|c s IH]; simpl; [apply Forall_nil|].
  apply ascii_only_app; [apply escape_char_ascii|exact IH].
Qed.

(** UTF-8 leaves ASCII text as it is, one byte per character. *)
Lemma encode_utf8_ascii (s : pystr) :
  ascii_only s -> encode_utf8 s = Return s.
Proof.
  induction 1 as [|c s Hc Hs IH]; simpl; [reflexivity|].
  unfold utf8_encode_cp. apply N.ltb_lt in Hc. rewrite Hc.
  rewrite IH. reflexivity.
Qed.

Section FramingFacts.

Variable float_repr : spec_float -> pystr.
Hypothesis float_repr_ascii : forall f, ascii_only (float_repr f).

(** With [ensure_ascii] left at its default, [json.dumps] escapes every
    character outside ASCII: its text is ASCII only. *)
Lemma json_dumps_ascii (v : pyval) : ascii_only (json_dumps float_repr v).
Proof.
  induction v as [|b|z|f|s|l IH|d IH] using pyval_nested_ind.
  - ascii_literal.
  - destruct b; ascii_literal.
  - apply py_str_int_ascii.
  - destruct f as [sg|sg| |sg m e]; simpl;
      try apply float_repr_ascii; try ascii_literal.
    destruct sg; ascii_literal.
  - apply encode_basestring_ascii_ascii.
  - cbn [json_dumps].
    apply ascii_only_app; [ascii_literal|].
    apply ascii_only_app; [|ascii_literal].
    induction IH as [|x rest Hx Hrest IHrest]; [apply Forall_nil|].
    apply ascii_only_app; [exact Hx|].
    destruct rest as [|y rest']; [apply Forall_nil|].
    apply ascii_only_app; [ascii_literal|exact IHrest].
  - cbn [json_dumps].
    apply ascii_only_app; [ascii_literal|].
    apply ascii_only_app; [|ascii_literal].
    induction IH as [|[k x] rest Hx Hrest IHrest]; [apply Forall_nil|].
    apply ascii_only_app; [apply encode_basestring_ascii_ascii|].
    apply ascii_only_app; [ascii_literal|].
    apply ascii_only_app; [exact Hx|].
    destruct rest as [|y rest']; [apply Forall_nil|].
    apply ascii_only_app; [ascii_literal|exact IHrest].
Qed.

End FramingFacts.

(** What [_send_message] writes on a connected socket, in terms of the
    [json.dumps] text. *)
Lemma send_message_text
    (float_repr : spec_float -> pystr) (s : socket) (message : pyval) :
  (forall f, ascii_only (float_repr f)) ->
  connected s = true ->
  _send_message float_repr s message
  = Return (peer_socket (inbound s)
              (outbound s
               ++ frame (Z.of_nat (List.length (json_dumps float_repr message)))
                    (json_dumps float_repr message))).
Proof.
  intros Hrepr Hconn.
  pose proof (json_dumps_ascii float_repr Hrepr message) as Hbody.
  unfold _send_message.
  rewrite encode_utf8_ascii.
  - simpl. unfold sendall. rewrite Hconn. unfold peer_socket, frame.
    now rewrite <- !app_assoc.
  - apply ascii_only_app; [|exact Hbody].
    apply ascii_only_app; [ascii_literal|].
    apply ascii_only_app; [apply py_str_int_ascii|ascii_literal].
Qed.

(** C4: for every envelope handed to [_send_message] on a connected
    socket, request or notification, what is written is one frame whose
    Content-Length is exactly the number of bytes of the UTF-8 encoded JSON
    body that follows it, non-ASCII characters in [params] included: the
    header counts the characters of the [json.dumps] text, which is ASCII
    only, so characters and bytes agree. *)
Theorem content_length_is_byte_length
    (float_repr : spec_float -> pystr) (s : socket) (message : pyval) :
  (forall f, ascii_only (float_repr f)) ->
  connected s = true ->
  exists body : bytes,
    encode_utf8 (json_dumps float_repr message) = Return body /\
    _send_message float_repr s message
    = Return (peer_socket (inbound s)
                (outbound s ++ frame (Z.of_nat (List.length body)) body)).
Proof.
  intros Hrepr Hconn.
  exists (json_dumps float_repr message). split.
  - apply encode_utf8_ascii. apply json_dumps_ascii. exact Hrepr.
  - apply send_message_text; assumption.
Qed.

Lemma repr_zero_ascii (f : spec_float) : ascii_only (repr_zero f).
Proof.
  destruct f as [[|]|sg| |sg m e]; ascii_literal.
Qed.

Lemma content_length_is_byte_length_witness :
  let s := peer_socket [] [] in
  let message :=
    PDict [(lit "jsonrpc", PStr (lit "2.0"));
           (lit "method", PStr (lit "textDocument/didChange"));
           (lit "params",
            PDict [(lit "text", PStr [233; 8364; 128512]%N);
                   (lit "ratio", PFloat (S754_zero true))])] in
  (forall f, ascii_only (repr_zero f)) /\
  connected s = true /\
  exists body : bytes,
    encode_utf8 (json_dumps repr_zero message) = Return body /\
    _send_message repr_zero s message
    = Return (peer_socket (inbound s)
                (outbound s ++ frame (Z.of_nat (List.length body)) body)).
Proof.
  cbv zeta.
  split; [exact repr_zero_ascii|].
  split; [reflexivity|].
  exact (content_length_is_byte_length repr_zero (peer_socket [] [])
           (PDict [(lit "jsonrpc", PStr (lit "2.0"));
                   (lit "method", PStr (lit "textDocument/didChange"));
                   (lit "params",
                    PDict [(lit "text", PStr [233; 8364; 128512]%N);
                           (lit "ratio", PFloat (S754_zero true))])])
           repr_zero_ascii eq_refl).
Defined.

(** A frame with non-ASCII [params], computed: 102 characters, 102 bytes. *)
Example non_ascii_params_frame :
  let message :=
    PDict [(lit "jsonrpc", PStr (lit "2.0"));
           (lit "method", PStr (lit "textDocument/didChange"));
           (lit "params", PDict [(lit "text", PStr [233; 8364; 128512]%N)])] in
  List.length (json_dumps repr_zero message) = 102%nat /\
  encode_utf8 (json_dumps repr_zero message)
  = Return (json_dumps repr_zero message) /\
  option_map (firstn 23)
    (match _send_message repr_zero (peer_socket [] []) message with
     | Return s' => Some (outbound s')
     | Raise _ => None
     end)
  = Some (lit "Content-Length: 102" ++ CRLFCRLF).
Proof.
  vm_compute. repeat split; reflexivity.
Qed.

(** ** Reading a frame from a stream the peer closes *)

Lemma startswith_app (p a b : pystr) :
  startswith p a = true -> startswith p (a ++ b) = true.
Proof.
  revert a; induction p as [|x p IH]; intros a H; [reflexivity|].
  destruct a as [|y a]; simpl in *; [discriminate|].
  apply andb_true_iff in H as [Hxy Hp].
  now rewrite Hxy, (IH a Hp).
Qed.

Lemma substring_app (p a b : pystr) :
  substring p a = true -> substring p (a ++ b) = true.
Proof.
  induction a as [|y a IH]; intros H.
  - simpl in H. rewrite orb_false_r in H.
    destruct p; [|discriminate]. now destruct b.
  - simpl in H. apply orb_true_iff in H as [H|H].
    + change ((y :: a) ++ b) with (y :: (a ++ b)).
      cbn [substring]. change (y :: a ++ b) with ((y :: a) ++ b).
      now rewrite (startswith_app _ _ b H).
    + change ((y :: a) ++ b) with (y :: (a ++ b)).
      cbn [substring]. rewrite (IH H). apply orb_true_r.
Qed.

Lemma substring_prefix_false (p a b : pystr) :
  substring p (a ++ b) = false -> substring p a = false.
Proof.
  intros H. destruct (substring p a) eqn:E; [|reflexivity].
  now rewrite (substring_app p a b E) in H.
Qed.

Lemma connected_socket (s : socket) :
  connected s = true -> s = peer_socket (inbound s) (outbound s).
Proof.
  destruct s as [c i o]; simpl. now intros ->.
Qed.

(** One byte read off the front of a script. *)
Lemma recv_one (b : N) (c : bytes) (script : list bytes) (sent : bytes) :
  recv (peer_socket ((b :: c) :: script) sent) 1
  = (Return [b],
     peer_socket (match c with [] => script | _ => c :: script end) sent).
Proof.
  unfold recv, peer_socket; simpl. now destruct c.
Qed.

Lemma recv_closed (n : nat) (script : list bytes) (sent : bytes) :
  recv (peer_socket ([] :: script) sent) n
  = (Return [], peer_socket ([] :: script) sent).
Proof. reflexivity. Qed.

(** A read that asks for at least the whole next chunk gets it whole. *)
Lemma recv_chunk (n : nat) (c : bytes) (script : list bytes) (sent : bytes) :
  c <> [] -> (List.length c <= n)%nat ->
  recv (peer_socket (c :: script) sent) n
  = (Return c, peer_socket script sent).
Proof.
  intros Hc Hn. destruct c as [|b c]; [now elim Hc|].
  unfold recv, peer_socket; cbn [connected inbound outbound].
  now rewrite (firstn_all2 _ Hn), (skipn_all2 _ Hn).
Qed.

Lemma chunks_length (chunks : list bytes) :
  Forall (fun c => c <> []) chunks ->
  (List.length chunks <= List.length (concat chunks))%nat.
Proof.
  induction 1 as [|c chunks Hc _ IH]; simpl; [lia|].
  rewrite length_app. destruct c; [now elim Hc|simpl; lia].
Qed.

Section ReceiveFacts.

Variable rest : list bytes.
Variable sent : bytes.




End ReceiveFacts.



(** Closed streams, computed: inside the header, after the header with no
    body byte, and two bytes short of the body. *)
Example closed_stream_runs :
  fst (_receive_response int_of_ascii loads_small
         (peer_socket [lit "Content-Le"; []] []))
  = Raise connection_closed
  /\ fst (_receive_response int_of_ascii loads_small
            (peer_socket [lit "Content-Length: 4" ++ CRLFCRLF; []] []))
     = Raise connection_closed
  /\ fst (_receive_response int_of_ascii loads_small
            (peer_socket [lit "Content-Length: 4" ++ CRLFCRLF ++ lit "nu"; []]
               []))
     = Raise connection_closed
  /\ fst (_receive_response int_of_ascii loads_small
            (peer_socket [lit "Content-Length: 4" ++ CRLFCRLF ++ lit "nu";
                          lit "ll"; []] []))
     = Return PNone.
Proof.
  vm_compute. repeat split; reflexivity.
Qed.

(** ** The read loops always end *)

Lemma pending_after_recv (s s' : socket) (n : nat) (chunk : bytes) :
  recv s n = (Return chunk, s') ->
  (pending s' + List.length chunk = pending s)%nat.
Proof.
  unfold recv, pending.
  destruct (connected s); [|discriminate].
  destruct (inbound s) as [|c script] eqn:E; [discriminate|].
  destruct c as [|b c].
  - intros [= <- <-]. rewrite E. simpl. lia.
  - intros [= <- <-]. cbn [inbound].
    generalize (b :: c). intros whole.
    pose proof (length_skipn n whole) as Hskip.
    pose proof (length_firstn n whole) as Hfirst.
    destruct (skipn n whole) as [|x later];
      cbn [concat]; rewrite ?length_app; cbn [List.length] in *; lia.
Qed.

Lemma read_header_ends (fuel : nat) :
  forall (s : socket) (header : bytes),
    (pending s < fuel)%nat -> read_header fuel s header <> None.
Proof.
  induction fuel as [|fuel IH]; intros s header Hfuel; [lia|].
  cbn [read_header].
  destruct (substring CRLFCRLF header); [discriminate|].
  destruct (recv s 1) as [[chunk|e] s'] eqn:R; [|discriminate].
  destruct chunk as [|b chunk]; [discriminate|].
  apply IH. pose proof (pending_after_recv _ _ _ _ R) as H. simpl in H. lia.
Qed.

Lemma read_body_ends (content_length : Z) (fuel : nat) :
  forall (s : socket) (body : bytes),
    (pending s < fuel)%nat -> read_body fuel s content_length body <> None.
Proof.
  induction fuel as [|fuel IH]; intros s body Hfuel; [lia|].
  cbn [read_body].
  destruct (Z.of_nat (List.length body) <? content_length); [|discriminate].
  destruct (recv s _) as [[chunk|e] s'] eqn:R; [|discriminate].
  destruct chunk as [|b chunk]; [discriminate|].
  apply IH. pose proof (pending_after_recv _ _ _ _ R) as H. simpl in H. lia.
Qed.

(** [_receive_response] gives its loops enough turns: neither runs out. *)
Lemma receive_response_ends (s : socket) :
  read_header (S (pending s)) s [] <> None
  /\ (forall (s1 : socket) (content_length : Z),
        read_body (S (pending s1)) s1 content_length [] <> None).
Proof.
  split.
  - apply read_header_ends. lia.
  - intros s1 content_length. apply read_body_ends. lia.
Qed.

(** ** The id on the wire *)

Lemma recv_outbound (s s' : socket) (n : nat) (r : outcome bytes) :
  recv s n = (r, s') -> outbound s' = outbound s.
Proof.
  unfold recv.
  destruct (connected s); [|now intros [= <- <-]].
  destruct (inbound s) as [|[|b c] script]; intros [= <- <-]; reflexivity.
Qed.

Lemma read_header_outbound (fuel : nat) :
  forall (s s' : socket) (header : bytes) (r : outcome bytes),
    read_header fuel s header = Some (r, s') -> outbound s' = outbound s.
Proof.
  induction fuel as [|fuel IH]; intros s s' header r; cbn [read_header];
    destruct (substring CRLFCRLF header);
    try (intros [= <- <-]; reflexivity); try discriminate.
  destruct (recv s 1) as [[chunk|e] s1] eqn:R.
  - destruct chunk as [|b chunk].
    + intros [= <- <-]. exact (recv_outbound _ _ _ _ R).
    + intros H. rewrite (IH _ _ _ _ H). exact (recv_outbound _ _ _ _ R).
  - intros [= <- <-]. exact (recv_outbound _ _ _ _ R).
Qed.

Lemma read_body_outbound (content_length : Z) (fuel : nat) :
  forall (s s' : socket) (body : bytes) (r : outcome bytes),
    read_body fuel s content_length body = Some (r, s') ->
    outbound s' = outbound s.
Proof.
  induction fuel as [|fuel IH]; intros s s' body r; cbn [read_body];
    destruct (Z.of_nat (List.length body) <? content_length);
    try (intros [= <- <-]; reflexivity); try discriminate.
  destruct (recv s _) as [[chunk|e] s1] eqn:R.
  - destruct chunk as [|b chunk].
    + intros [= <- <-]. exact (recv_outbound _ _ _ _ R).
    + intros H. rewrite (IH _ _ _ _ H). exact (recv_outbound _ _ _ _ R).
  - intros [= <- <-]. exact (recv_outbound _ _ _ _ R).
Qed.

(** Reading a response writes nothing. *)
Lemma receive_response_outbound
    (py_int : pystr -> option Z) (json_loads : pystr -> option pyval)
    (s : socket) :
  outbound (snd (_receive_response py_int json_loads s)) = outbound s.
Proof.
  unfold _receive_response.
  destruct (read_header _ s []) as [[[header|e] s1]|] eqn:H1;
    try reflexivity;
    pose proof (read_header_outbound _ _ _ _ _ H1) as O1;
    [|exact O1].
  destruct (parse_content_length py_int header) as [n|e]; [|exact O1].
  destruct (read_body _ s1 n []) as [[[body|e] s2]|] eqn:H2;
    try exact O1;
    pose proof (read_body_outbound _ _ _ _ _ _ H2) as O2;
    simpl; congruence.
Qed.

(** The id [run] lists is the id the peer sees: on a connected socket a
    request writes exactly one frame, whose body is the envelope carrying
    the counter's new value as ["id"]. *)
Lemma send_request_on_wire
    (float_repr : spec_float -> pystr) (py_int : pystr -> option Z)
    (json_loads : pystr -> option pyval)
    (self : LspClient) (s : socket) (method : pystr) (params : pyval) :
  (forall f, ascii_only (float_repr f)) ->
  sock self = Some s ->
  connected s = true ->
  let after :=
    snd (send_request float_repr py_int json_loads self method params) in
  let body :=
    json_dumps float_repr
      (PDict [(lit "jsonrpc", PStr (lit "2.0"));
              (lit "id", PInt (request_id after));
              (lit "method", PStr method);
              (lit "params", or_empty params)]) in
  request_id after = request_id self + 1 /\
  exists s2 : socket,
    sock after = Some s2 /\
    outbound s2 = outbound s ++ frame (Z.of_nat (List.length body)) body.
Proof.
  intros Hrepr Hs Hconn after body.
  assert (Hid : request_id after = request_id self + 1).
  { apply (send_request_counter float_repr py_int json_loads).
    rewrite Hs. discriminate. }
  split; [exact Hid|].
  subst body. rewrite Hid. subst after.
  unfold send_request. rewrite Hs. cbn [request_id].
  rewrite (send_message_text float_repr s _ Hrepr Hconn).
  match goal with
  | |- context [_receive_response py_int json_loads ?s1] =>
      pose proof (receive_response_outbound py_int json_loads s1) as Hout;
      destruct (_receive_response py_int json_loads s1) as [response s2]
  end.
  exists s2. split; [reflexivity|]. exact Hout.
Qed.

(** A failed connection attempt leaves the unconnected socket object in
    [self.sock]: the next request passes the check, takes id 1 and fails in
    [sendall]. *)
Example request_after_failed_connect :
  let self := snd (connect (__init__ (lit "127.0.0.1") 9999) ConnectFails) in
  fst (connect (__init__ (lit "127.0.0.1") 9999) ConnectFails) = false /\
  fst (send_request repr_zero int_of_ascii loads_small self
         (lit "shutdown") PNone)
  = Raise OSError /\
  request_id
    (snd (send_request repr_zero int_of_ascii loads_small self
            (lit "shutdown") PNone))
  = 1.
Proof.
  vm_compute. repeat split; reflexivity.
Qed.

(** * Further properties of the validator *)

(** X1: for an error-free envelope whose result is an object, against a
    descriptor of object kind, the issues are
    ["Missing required field: <name>"], one per [requiredFields] name that
    is no key of the object, in the order of [requiredFields] (none when
    the key is left out), and the verdict passes iff there is none. *)
Theorem validate_object_fields
    (py_str : pyval -> pystr) (name : pystr)
    (result : list (pystr * pyval)) (schema : Schema)
    (object : list (pystr * pyval)) :
  dict_get (lit "error") result = None ->
  dict_get (lit "result") result = Some (PDict object) ->
  type schema = Some (lit "object") ->
  let required := match requiredFields schema with
                  | Some fields => fields
                  | None => []
                  end in
  let issues :=
    map (fun f => lit "Missing required field: " ++ f)
        (filter (fun f => negb (dict_has f object)) required) in
  validate_schema py_str name result schema
  = Return (match issues with [] => true | _ => false end, issues).
Proof.
  intros Herr Hres Hty required issues. unfold validate_schema.
  rewrite Herr, Hres, Hty. simpl truthy. cbv iota.
  replace (pystr_eqb (lit "object") (lit "array")) with false by reflexivity.
  rewrite pystr_eqb_refl, check_fields_object. reflexivity.
Qed.

Lemma validate_object_fields_witness :
  let result :=
    [(lit "id", PInt 2);
     (lit "result", PDict [(lit "uri", PStr (lit "file:///a.kt"))])] in
  let schema := object_schema ["uri"%string; "range"%string] in
  dict_get (lit "error") result = None /\
  type schema = Some (lit "object") /\
  validate_schema (fun _ => []) (lit "textDocument/definition") result schema
  = Return (false, [lit "Missing required field: range"]).
Proof.
  cbv zeta.
  split; [reflexivity|].
  split; [reflexivity|].
  exact (validate_object_fields (fun _ => []) (lit "textDocument/definition")
           [(lit "id", PInt 2);
            (lit "result", PDict [(lit "uri", PStr (lit "file:///a.kt"))])]
           (object_schema ["uri"%string; "range"%string])
           [(lit "uri", PStr (lit "file:///a.kt"))]
           eq_refl eq_refl eq_refl).
Defined.

(** X2: whenever [validate_schema] returns a verdict, it passes exactly
    when the list of issues is empty. *)
Theorem verdict_passes_iff_no_issue
    (py_str : pyval -> pystr) (name : pystr)
    (result : list (pystr * pyval)) (schema : Schema)
    (passed : bool) (issues : list pystr) :
  validate_schema py_str name result schema = Return (passed, issues) ->
  passed = true <-> issues = [].
Proof.
  unfold validate_schema.
  destruct (truthy _).
  { intros [= <- <-]. split; discriminate. }
  destruct (match dict_get (lit "result") result with
            | Some r => r
            | None => PNone
            end) eqn:Hres;
    try (destruct (match nullable schema with Some b => b | None => false end);
         intros [= <- <-]; split; (reflexivity || discriminate));
    match goal with
    | |- bind ?m _ = _ -> _ =>
        destruct m as [found|e]; simpl; [|discriminate];
        intros [= <- <-]; destruct found; split;
          (reflexivity || discriminate)
    end.
Qed.

Lemma verdict_passes_iff_no_issue_witness :
  let result := [(lit "result", PList [PDict [(lit "title", PInt 1)]])] in
  validate_schema (fun _ => []) (lit "textDocument/codeAction") result
    (array_schema ["title"%string])
  = Return (true, []) /\
  (true = true <-> @nil pystr = []).
Proof.
  cbv zeta.
  split; [reflexivity|].
  exact (verdict_passes_iff_no_issue (fun _ => [])
           (lit "textDocument/codeAction")
           [(lit "result", PList [PDict [(lit "title", PInt 1)]])]
           (array_schema ["title"%string]) true [] eq_refl).
Defined.

(** The field loop never raises on a container. *)
Lemma check_fields_container (prefix : pystr) (item : pyval)
    (fields issues : list pystr) :
  is_scalar item = false ->
  exists found, check_fields prefix item fields issues = Return found.
Proof.
  intros Hitem. revert issues.
  induction fields as [|f fields IH]; intros issues; simpl.
  - now exists issues.
  - destruct item; try discriminate; simpl; apply IH.
Qed.

(** X3: the only exception [validate_schema] raises is the [TypeError] of
    the membership test, and it raises it exactly when the error field is
    falsy, the descriptor is of array kind with a non-empty [itemFields],
    and the result is a non-empty array whose first element is null, a
    boolean or a number. *)
Theorem validate_raises_iff
    (py_str : pyval -> pystr) (name : pystr)
    (result : list (pystr * pyval)) (schema : Schema) (e : exn) :
  validate_schema py_str name result schema = Raise e
  <->
  e = TypeError /\
  truthy (match dict_get (lit "error") result with
          | Some err => err
          | None => PNone
          end) = false /\
  type schema = Some (lit "array") /\
  exists (item : pyval) (later : list pyval) (f : pystr) (fs : list pystr),
    dict_get (lit "result") result = Some (PList (item :: later)) /\
    is_scalar item = true /\
    itemFields schema = Some (f :: fs).
Proof.
  unfold validate_schema. split.
  - destruct (truthy _); [discriminate|].
    destruct (dict_get (lit "result") result) as [response|] eqn:Hres;
      [|destruct (match nullable schema with Some b => b | None => false end);
        discriminate].
    destruct (type schema) as [t|] eqn:Hty.
    2:{ destruct response; try discriminate;
        destruct (match nullable schema with Some b => b | None => false end);
        discriminate. }
    destruct (pystr_eqb t (lit "array")) eqn:Harr.
    + apply pystr_eqb_eq in Harr. subst t.
      destruct response as [| | | | |l|]; try discriminate;
        try (destruct (match nullable schema with
                       | Some b => b | None => false end); discriminate).
      destruct l as [|item later]; [discriminate|].
      destruct (itemFields schema) as [[|f fs]|] eqn:Hfields;
        try discriminate.
      destruct (is_scalar item) eqn:Hitem.
      * intros H.
        assert (e = TypeError) as ->.
        { destruct item; try discriminate; simpl in H; congruence. }
        repeat split. exists item, later, f, fs. now repeat split.
      * destruct (check_fields_container
                    (lit "Array item missing required field: ")
                    item (f :: fs) [] Hitem) as [found Hfound].
        rewrite Hfound. discriminate.
    + destruct (pystr_eqb t (lit "object")).
      * destruct response as [| | | | | |d]; try discriminate;
          try (destruct (match nullable schema with
                         | Some b => b | None => false end); discriminate).
        rewrite check_fields_object. discriminate.
      * destruct response; try discriminate;
          destruct (match nullable schema with
                    | Some b => b | None => false end); discriminate.
  - intros (-> & Herr & Hty & item & later & f & fs & Hres & Hitem & Hfields).
    rewrite Herr, Hres, Hty, Hfields. rewrite pystr_eqb_refl.
    destruct item; try discriminate; reflexivity.
Qed.

(** X4: against a descriptor of array kind, an error-free array result
    passes with no issue when the array is empty, and also when the
    descriptor lists no item field ([itemFields] left out or empty),
    whatever the elements are. *)
Theorem validate_array_unchecked
    (py_str : pyval -> pystr) (name : pystr)
    (result : list (pystr * pyval)) (schema : Schema) (items : list pyval) :
  dict_get (lit "error") result = None ->
  dict_get (lit "result") result = Some (PList items) ->
  type schema = Some (lit "array") ->
  items = [] \/ itemFields schema = None \/ itemFields schema = Some [] ->
  validate_schema py_str name result schema = Return (true, []).
Proof.
  intros Herr Hres Hty Hcase. unfold validate_schema.
  rewrite Herr, Hres, Hty. simpl truthy. cbv iota. rewrite pystr_eqb_refl.
  destruct Hcase as [-> | [-> | ->]]; try reflexivity;
    destruct items; try reflexivity;
    destruct (itemFields schema) as [[|]|]; reflexivity.
Qed.

Lemma validate_array_unchecked_witness :
  let result := [(lit "result", PList [])] in
  let schema := array_schema ["uri"%string; "range"%string] in
  dict_get (lit "error") result = None /\
  type schema = Some (lit "array") /\
  validate_schema (fun _ => []) (lit "textDocument/references") result schema
  = Return (true, []).
Proof.
  cbv zeta.
  split; [reflexivity|].
  split; [reflexivity|].
  exact (validate_array_unchecked (fun _ => [])
           (lit "textDocument/references") [(lit "result", PList [])]
           (array_schema ["uri"%string; "range"%string]) []
           eq_refl eq_refl eq_refl (or_introl eq_refl)).
Defined.

(** X5: against a descriptor of object kind, an error-free result that is
    neither null nor an object fails with the one issue
    ["Expected object, got <type>"], the Python type name of the result;
    [requiredFields] is not consulted. *)
Theorem validate_object_mismatch
    (py_str : pyval -> pystr) (name : pystr)
    (result : list (pystr * pyval)) (schema : Schema) (response : pyval) :
  dict_get (lit "error") result = None ->
  dict_get (lit "result") result = Some response ->
  type schema = Some (lit "object") ->
  response <> PNone ->
  (forall d, response <> PDict d) ->
  validate_schema py_str name result schema
  = Return (false, [lit "Expected object, got " ++ type_name response]).
Proof.
  intros Herr Hres Hty Hnone Hdict. unfold validate_schema.
  rewrite Herr, Hres, Hty. simpl truthy. cbv iota.
  replace (pystr_eqb (lit "object") (lit "array")) with false by reflexivity.
  rewrite pystr_eqb_refl.
  destruct response; try reflexivity.
  - now elim Hnone.
  - now elim (Hdict d).
Qed.

Lemma validate_object_mismatch_witness :
  let response := PList [PDict [(lit "uri", PStr (lit "file:///a.kt"))]] in
  let result := [(lit "result", response)] in
  let schema := object_schema ["uri"%string; "range"%string] in
  dict_get (lit "error") result = None /\
  type schema = Some (lit "object") /\
  validate_schema (fun _ => []) (lit "textDocument/definition") result schema
  = Return (false, [lit "Expected object, got list"]).
Proof.
  cbv zeta.
  split; [reflexivity|].
  split; [reflexivity|].
  apply (validate_object_mismatch (fun _ => [])
           (lit "textDocument/definition")
           [(lit "result",
             PList [PDict [(lit "uri", PStr (lit "file:///a.kt"))]])]
           (object_schema ["uri"%string; "range"%string])
           (PList [PDict [(lit "uri", PStr (lit "file:///a.kt"))]]));
    first [reflexivity | discriminate].
Defined.

(** * print_result *)


(** X7: when [print_result] returns [True] it has printed four lines, the
    three of the banner and one result line of at most 2025 characters,
    however long the formatted result is: the formatted text is cut after
    2000 characters and marked as truncated. *)
Theorem print_result_output_bounded
    (py_str : pyval -> pystr) (dumps_pretty : pyval -> pystr)
    (name : pystr) (result : list (pystr * pyval)) :
  snd (print_result py_str dumps_pretty name result) = Done true ->
  exists line : pystr,
    fst (print_result py_str dumps_pretty name result)
    = [[10%N] ++ banner; lit "  " ++ name; banner; line]
    /\ (List.length line <= 2025)%nat
    /\ forall response,
         dict_get (lit "result") result = Some response ->
         response <> PNone ->
         (List.length (dumps_pretty response) <= 2000)%nat ->
         line = lit "[RESULT]" ++ [10%N] ++ dumps_pretty response.
Proof.
  unfold print_result.
  destruct (truthy _).
  { destruct (match dict_get (lit "error") result with
              | Some e => e
              | None => PNone
              end); discriminate. }
  intros _.
  destruct (dict_get (lit "result") result) as [response|] eqn:Hres.
  2:{ eexists. split; [reflexivity|]. split; [apply Nat.leb_le; reflexivity|]. discriminate. }
  assert (Hcut : forall text : pystr,
             (List.length
                (lit "[RESULT]" ++ [10%N] ++
                 (if (2000 <? List.length text)%nat
                  then firstn 2000 text ++ [10%N] ++ lit "... (truncated)"
                  else text)) <= 2025)%nat).
  { intros text.
    assert (H8 : List.length (lit "[RESULT]") = 8%nat) by reflexivity.
    assert (H15 : List.length (lit "... (truncated)") = 15%nat)
      by reflexivity.
    destruct (2000 <? List.length text)%nat eqn:E.
    - rewrite !length_app, length_firstn, H8, H15. cbn [List.length]. lia.
    - apply Nat.ltb_ge in E. rewrite !length_app, H8. cbn [List.length].
      lia. }
  destruct response;
    try (eexists; split; [reflexivity|]; split; [apply Hcut|];
         intros r [= <-] _ Hshort;
         apply Nat.ltb_ge in Hshort; rewrite Hshort; reflexivity).
  eexists. split; [reflexivity|]. split; [apply Nat.leb_le; reflexivity|].
  intros r [= <-] Hnone. now elim Hnone.
Qed.

Lemma print_result_output_bounded_witness :
  let dumps := fun _ : pyval => repeat 120%N 5000 in
  let result := [(lit "result", PInt 7)] in
  snd (print_result (fun _ => []) dumps (lit "hover") result) = Done true /\
  exists line : pystr,
    fst (print_result (fun _ => []) dumps (lit "hover") result)
    = [[10%N] ++ banner; lit "  " ++ lit "hover"; banner; line]
    /\ (List.length line <= 2025)%nat.
Proof.
  cbv zeta.
  split; [reflexivity|].
  destruct (print_result_output_bounded (fun _ => [])
              (fun _ => repeat 120%N 5000) (lit "hover")
              [(lit "result", PInt 7)] eq_refl)
    as [line [Hout [Hlen _]]].
  exists line. split; [exact Hout|exact Hlen].
Defined.

(** * Further properties of the transport *)

(** ** Reading a whole frame *)

(** A read that asks for less than the next chunk takes its front and
    leaves the rest at the head of the script. *)
Lemma recv_partial (n : nat) (c : bytes) (script : list bytes)
    (sent : bytes) :
  (n < List.length c)%nat ->
  recv (peer_socket (c :: script) sent) n
  = (Return (firstn n c), peer_socket (skipn n c :: script) sent).
Proof.
  intros Hn. destruct c as [|b c]; [simpl in Hn; lia|].
  unfold recv, peer_socket; cbn [connected inbound outbound].
  destruct (skipn n (b :: c)) as [|x later] eqn:E; [|reflexivity].
  pose proof (length_skipn n (b :: c)) as H. rewrite E in H.
  cbn [List.length] in *. lia.
Qed.

Section ReadFacts.

Variable tl : list bytes.
Variable sent : bytes.

(** The header loop stops right after the header block, whatever follows
    it in the script. *)
Lemma read_header_stops (hdr body : bytes) (fuel : nat) :
  header_block hdr ->
  forall (chunks : list bytes) (header tail : bytes),
    Forall (fun c => c <> []) chunks ->
    hdr = header ++ tail ->
    concat chunks = tail ++ body ->
    (List.length (concat chunks) < fuel)%nat ->
    exists chunks' : list bytes,
      read_header fuel (peer_socket (chunks ++ tl) sent) header
      = Some (Return hdr, peer_socket (chunks' ++ tl) sent)
      /\ Forall (fun c => c <> []) chunks'
      /\ concat chunks' = body.
Proof.
  intros [Hin Hfirst].
  induction fuel as [|fuel IH]; intros chunks header tail Hne Hhdr Hcat Hfuel;
    [lia|].
  cbn [read_header].
  destruct (substring CRLFCRLF header) eqn:Hsub.
  - assert (tail = []) as ->.
    { destruct tail as [|b tail]; [reflexivity|].
      rewrite Hhdr, removelast_app in Hfirst by discriminate.
      rewrite (substring_prefix_false _ _ _ Hfirst) in Hsub. discriminate. }
    rewrite app_nil_r in Hhdr. subst header.
    exists chunks. now repeat split.
  - destruct tail as [|b tail].
    { rewrite app_nil_r in Hhdr. subst header. congruence. }
    destruct chunks as [|c chunks]; [discriminate|].
    inversion Hne as [|? ? Hc Hne']; subst.
    destruct c as [|b0 c]; [now elim Hc|].
    simpl in Hcat. injection Hcat as -> Hcat.
    cbn [app]. rewrite recv_one.
    simpl in Hfuel. rewrite length_app in Hfuel.
    destruct c as [|b' c].
    + apply (IH chunks (header ++ [b]) tail); auto.
      * now rewrite <- app_assoc.
      * simpl in Hfuel. lia.
    + apply (IH ((b' :: c) :: chunks) (header ++ [b]) tail).
      * constructor; [discriminate|exact Hne'].
      * now rewrite <- app_assoc.
      * exact Hcat.
      * simpl in *. rewrite length_app. lia.
Qed.

(** The body loop gathers exactly the announced number of bytes across the
    chunks and leaves what follows in the script. *)
Lemma read_body_complete (content_length : Z) :
  forall (chunks : list bytes) (got body extra : bytes) (fuel : nat),
    Forall (fun c => c <> []) chunks ->
    concat chunks = body ++ extra ->
    Z.of_nat (List.length got + List.length body) = content_length ->
    (List.length chunks < fuel)%nat ->
    exists script' : list bytes,
      read_body fuel (peer_socket (chunks ++ tl) sent) content_length got
      = Some (Return (got ++ body), peer_socket script' sent)
      /\ concat script' = extra ++ concat tl.
Proof.
  assert (Hstop : forall fuel script got,
             Z.of_nat (List.length got) = content_length ->
             read_body fuel (peer_socket script sent) content_length got
             = Some (Return got, peer_socket script sent)).
  { intros fuel script got Hgot.
    destruct fuel; cbn [read_body];
      (replace (Z.of_nat (List.length got) <? content_length) with false
         by (symmetry; apply Z.ltb_ge; lia)); reflexivity. }
  induction chunks as [|c chunks IH];
    intros got body extra fuel Hne Hcat Hlen Hfuel.
  - simpl in Hcat. symmetry in Hcat. apply app_eq_nil in Hcat as [-> ->].
    rewrite app_nil_r. exists tl. split; [|reflexivity].
    apply Hstop. simpl in Hlen. lia.
  - destruct body as [|b body].
    { rewrite app_nil_r. exists ((c :: chunks) ++ tl). split.
      - apply Hstop. simpl in Hlen. lia.
      - rewrite concat_app. now rewrite Hcat. }
    inversion Hne as [|? ? Hc Hne']; subst.
    destruct fuel as [|fuel]; [simpl in Hfuel; lia|].
    cbn [read_body].
    replace (Z.of_nat (List.length got)
             <? Z.of_nat (List.length got + List.length (b :: body)))
      with true by (symmetry; apply Z.ltb_lt; simpl; lia).
    replace (Z.to_nat (Z.of_nat (List.length got + List.length (b :: body))
                       - Z.of_nat (List.length got)))
      with (List.length (b :: body)) by lia.
    cbn [concat] in Hcat.
    apply (app_eq_app c (concat chunks) (b :: body) extra) in Hcat
      as [l [[Hc' Hextra] | [Hbody Hrest]]].
    + (* the chunk reaches to the end of the body, or beyond *)
      destruct l as [|x l].
      * rewrite app_nil_r in Hc'. subst c. simpl in Hextra.
        cbn [app]. rewrite recv_chunk by (auto; lia).
        destruct (IH (got ++ b :: body) [] extra fuel) as [script' [Hr Hs]];
          auto.
        { rewrite length_app. simpl. lia. }
        { simpl in Hfuel. lia. }
        exists script'. rewrite app_nil_r in Hr. now split.
      * cbn [app].
        rewrite recv_partial by (rewrite Hc', length_app; simpl; lia).
        rewrite Hc'.
        rewrite firstn_app, firstn_all, Nat.sub_diag, firstn_O, app_nil_r.
        rewrite skipn_app, skipn_all, Nat.sub_diag. cbn [skipn app].
        exists ((x :: l) :: chunks ++ tl). split.
        -- apply Hstop. rewrite length_app. lia.
        -- cbn [concat]. rewrite concat_app, Hextra.
           now rewrite <- app_assoc.
    + (* the chunk is a part of the body *)
      cbn [app]. rewrite recv_chunk.
      * destruct c as [|x c]; [now elim Hc|].
        destruct (IH (got ++ x :: c) l extra fuel) as [script' [Hr Hs]];
          auto.
        { rewrite length_app.
          assert (List.length (b :: body) = List.length ((x :: c) ++ l))
            by now rewrite Hbody.
          rewrite length_app in *. lia. }
        { simpl in Hfuel. lia. }
        exists script'. split; [|exact Hs].
        rewrite Hr, Hbody, <- app_assoc. reflexivity.
      * exact Hc.
      * rewrite Hbody, length_app. lia.
Qed.

End ReadFacts.

(** The two loops in a row, on a script that holds a whole frame. *)
Lemma receive_frame_steps
    (py_int : pystr -> option Z) (json_loads : pystr -> option pyval)
    (s : socket) (chunks tl : list bytes) (hdr body extra : bytes) (n : Z) :
  connected s = true ->
  inbound s = chunks ++ tl ->
  Forall (fun c => c <> []) chunks ->
  concat chunks = hdr ++ body ++ extra ->
  header_block hdr ->
  parse_content_length py_int hdr = Return n ->
  Z.of_nat (List.length body) = n ->
  exists s' : socket,
    _receive_response py_int json_loads s
    = (text <- decode_utf8 body ;;
       match json_loads text with
       | Some response => Return response
       | None => Raise JSONDecodeError
       end, s')
    /\ concat (inbound s') = extra ++ concat tl
    /\ outbound s' = outbound s.
Proof.
  intros Hconn Hin Hne Hcat Hblock Hparse Hlen.
  rewrite (connected_socket s Hconn), Hin.
  unfold _receive_response.
  destruct (read_header_stops tl (outbound s) hdr (body ++ extra)
              (S (pending (peer_socket (chunks ++ tl) (outbound s))))
              Hblock chunks [] hdr Hne eq_refl Hcat)
    as (chunks' & Hread & Hne' & Hcat').
  { unfold pending, peer_socket; cbn [inbound].
    rewrite concat_app, length_app. lia. }
  rewrite Hread, Hparse.
  destruct (read_body_complete tl (outbound s) n chunks' [] body extra
              (S (pending (peer_socket (chunks' ++ tl) (outbound s))))
              Hne' Hcat')
    as (script' & Hbody & Hleft).
  { simpl. exact Hlen. }
  { unfold pending, peer_socket; cbn [inbound].
    rewrite concat_app, length_app.
    pose proof (chunks_length chunks' Hne'). lia. }
  rewrite Hbody. cbn [app].
  exists (peer_socket script' (outbound s)).
  split; [reflexivity|]. split; [exact Hleft|reflexivity].
Qed.

(** X8: a complete frame is read whole however the network cuts it into
    chunks: with a header block that parses to [n] and [n] body bytes
    delivered, [_receive_response] hands exactly those [n] bytes, decoded,
    to [json.loads], takes nothing past them from the stream and writes
    nothing. *)
Theorem receive_frame_any_chunking
    (py_int : pystr -> option Z) (json_loads : pystr -> option pyval)
    (s : socket) (chunks tl : list bytes) (hdr body extra : bytes) (n : Z) :
  connected s = true ->
  inbound s = chunks ++ tl ->
  Forall (fun c => c <> []) chunks ->
  concat chunks = hdr ++ body ++ extra ->
  header_block hdr ->
  parse_content_length py_int hdr = Return n ->
  Z.of_nat (List.length body) = n ->
  exists s' : socket,
    _receive_response py_int json_loads s
    = (text <- decode_utf8 body ;;
       match json_loads text with
       | Some response => Return response
       | None => Raise JSONDecodeError
       end, s')
    /\ concat (inbound s') = extra ++ concat tl
    /\ outbound s' = outbound s.
Proof.
  intros Hconn Hin Hne Hcat Hblock Hparse Hlen.
  destruct (receive_frame_steps py_int json_loads s chunks tl hdr body extra n
              Hconn Hin Hne Hcat Hblock Hparse Hlen)
    as (s' & Hread & Hleft & Hsent).
  exists s'. split; [exact Hread|]. split; [exact Hleft|exact Hsent].
Qed.

Lemma receive_frame_any_chunking_witness :
  let hdr := lit "Content-Length: 4" ++ CRLFCRLF in
  let chunks := [firstn 20 hdr; skipn 20 hdr ++ lit "n"; lit "u"; lit "l";
                 lit "lContent-"] in
  let s := peer_socket (chunks ++ [lit "Length: 2"]) (lit "sent") in
  Forall (fun c : bytes => c <> []) chunks /\
  concat chunks = hdr ++ lit "null" ++ lit "Content-" /\
  header_block hdr /\
  parse_content_length int_of_ascii hdr = Return 4 /\
  exists s' : socket,
    _receive_response int_of_ascii loads_small s = (Return PNone, s')
    /\ concat (inbound s') = lit "Content-" ++ lit "Length: 2"
    /\ outbound s' = lit "sent".
Proof.
  cbv zeta.
  assert (Hne : Forall (fun c : bytes => c <> [])
                  [firstn 20 (lit "Content-Length: 4" ++ CRLFCRLF);
                   skipn 20 (lit "Content-Length: 4" ++ CRLFCRLF) ++ lit "n";
                   lit "u"; lit "l"; lit "lContent-"]).
  { repeat constructor; discriminate. }
  assert (Hblock : header_block (lit "Content-Length: 4" ++ CRLFCRLF)).
  { split; reflexivity. }
  split; [exact Hne|].
  split; [reflexivity|].
  split; [exact Hblock|].
  split; [reflexivity|].
  exact (receive_frame_any_chunking int_of_ascii loads_small
           (peer_socket
              ([firstn 20 (lit "Content-Length: 4" ++ CRLFCRLF);
                skipn 20 (lit "Content-Length: 4" ++ CRLFCRLF) ++ lit "n";
                lit "u"; lit "l"; lit "lContent-"] ++ [lit "Length: 2"])
              (lit "sent"))
           [firstn 20 (lit "Content-Length: 4" ++ CRLFCRLF);
            skipn 20 (lit "Content-Length: 4" ++ CRLFCRLF) ++ lit "n";
            lit "u"; lit "l"; lit "lContent-"]
           [lit "Length: 2"]
           (lit "Content-Length: 4" ++ CRLFCRLF) (lit "null")
           (lit "Content-") 4
           eq_refl eq_refl Hne eq_refl Hblock eq_refl eq_refl).
Defined.

(** ** The header block *)

Lemma startswith_self (p r : pystr) : startswith p (p ++ r) = true.
Proof.
  induction p as [|x p IH]; [reflexivity|].
  simpl. now rewrite N.eqb_refl.
Qed.

Lemma startswith_prefix (p a : pystr) :
  startswith p a = true -> exists rest, a = p ++ rest.
Proof.
  revert a; induction p as [|x p IH]; intros a H.
  - now exists a.
  - destruct a as [|y a]; [discriminate|]. simpl in H.
    apply andb_true_iff in H as [Hxy Hp]. apply N.eqb_eq in Hxy. subst y.
    destruct (IH a Hp) as [rest ->]. now exists rest.
Qed.

(** [split] always gives at least one piece. *)
Lemma split_from_nonempty (sep : pystr) (s : pystr) :
  forall (skip : nat) (cur : pystr), split_from sep skip cur s <> [].
Proof.
  induction s as [|c s IH]; intros skip cur; cbn [split_from].
  - discriminate.
  - destruct skip; [|apply IH].
    destruct (startswith sep (c :: s)); [discriminate|apply IH].
Qed.

(** Passing over the rest of a separator. *)
Lemma split_from_skip (sep w cur rest : pystr) :
  split_from sep (List.length w) cur (w ++ rest) = split_from sep 0 cur rest.
Proof.
  induction w as [|c w IH]; [reflexivity|exact IH].
Qed.

(** Up to the first separator, when its first character occurs nowhere
    before it. *)
Lemma split_from_until (x : N) (sep' : pystr) :
  forall (a cur rest : pystr),
    ~ In x a ->
    split_from (x :: sep') 0 cur (a ++ (x :: sep') ++ rest)
    = (cur ++ a) :: split_from (x :: sep') 0 [] rest.
Proof.
  induction a as [|c a IH]; intros cur rest Hx.
  - rewrite app_nil_r. cbn [app split_from].
    change (x :: sep' ++ rest) with ((x :: sep') ++ rest).
    rewrite startswith_self.
    replace (List.length (x :: sep') - 1)%nat with (List.length sep')
      by (simpl; lia).
    now rewrite split_from_skip.
  - change ((c :: a) ++ (x :: sep') ++ rest)
      with (c :: (a ++ (x :: sep') ++ rest)).
    cbn [split_from].
    assert (Hc : (x =? c)%N = false).
    { apply N.eqb_neq. intros ->. apply Hx. now left. }
    cbn [startswith]. rewrite Hc. cbn [andb].
    rewrite IH by (intros H; apply Hx; now right).
    now rewrite <- app_assoc.
Qed.

(** No separator at all: one piece. *)
Lemma split_from_plain (x : N) (sep' : pystr) :
  forall (a cur : pystr),
    ~ In x a -> split_from (x :: sep') 0 cur a = [cur ++ a].
Proof.
  induction a as [|c a IH]; intros cur Hx.
  - now rewrite app_nil_r.
  - cbn [split_from].
    assert (Hc : (x =? c)%N = false).
    { apply N.eqb_neq. intros ->. apply Hx. now left. }
    cbn [startswith]. rewrite Hc. cbn [andb].
    rewrite IH by (intros H; apply Hx; now right).
    now rewrite <- app_assoc.
Qed.

Lemma decode_utf8_ascii (s : pystr) :
  ascii_only s -> decode_utf8 s = Return s.
Proof.
  induction 1 as [|c s Hc Hs IH]; [reflexivity|].
  cbn [decode_utf8]. apply N.ltb_lt in Hc. rewrite Hc, IH. reflexivity.
Qed.

Section HeaderFacts.

Variable py_int : pystr -> option Z.

Lemma scan_lines_skips (before : list pystr) (lines : list pystr) :
  Forall (fun l => startswith (lit "Content-Length:") l = false) before ->
  scan_lines py_int (before ++ lines) = scan_lines py_int lines.
Proof.
  induction 1 as [|l before Hl _ IH]; [reflexivity|].
  cbn [app scan_lines]. now rewrite Hl.
Qed.

End HeaderFacts.

(** X9: the header lines before the first one that starts with
    [Content-Length:] are passed over (a [Content-Type], or the same name
    in another letter case) and the lines after it are never looked at: the
    content length is [int()] of what stands between the first and the
    second colon of that line, stripped; a value [int()] refuses is a
    [ValueError]. *)
Theorem content_length_first_line
    (py_int : pystr -> option Z) (header : bytes) (text : pystr)
    (before after : list pystr) (line : pystr) :
  decode_utf8 header = Return text ->
  split CRLF text = before ++ line :: after ->
  Forall (fun l => startswith (lit "Content-Length:") l = false) before ->
  startswith (lit "Content-Length:") line = true ->
  exists (value : pystr) (more : list pystr),
    split (lit ":") line = lit "Content-Length" :: value :: more /\
    parse_content_length py_int header
    = match py_int (strip value) with
      | Some n => Return n
      | None => Raise ValueError
      end.
Proof.
  intros Hdec Hsplit Hbefore Hline.
  destruct (startswith_prefix _ _ Hline) as [rest Hrest].
  assert (Hcolon : split (lit ":") line
                   = lit "Content-Length" :: split_from (lit ":") 0 [] rest).
  { rewrite Hrest. unfold split.
    change (lit "Content-Length:" ++ rest)
      with (lit "Content-Length" ++ (58%N :: []) ++ rest).
    change (lit ":") with (58%N :: []).
    rewrite split_from_until; [reflexivity|].
    intros H. unfold lit in H. simpl in H.
    repeat (destruct H as [H|H]; [discriminate|]). exact H. }
  destruct (split_from (lit ":") 0 [] rest) as [|value more] eqn:Hr.
  { now elim (split_from_nonempty _ _ _ _ Hr). }
  exists value, more. split; [exact Hcolon|].
  unfold parse_content_length. rewrite Hdec. cbn [bind].
  rewrite Hsplit, scan_lines_skips by exact Hbefore.
  cbn [scan_lines]. rewrite Hline, Hcolon. reflexivity.
Qed.

Lemma content_length_first_line_witness :
  let header :=
    lit "content-length: 1" ++ CRLF ++ lit "Content-Type: x:y" ++ CRLF
    ++ lit "Content-Length: 7 :8" ++ CRLF ++ lit "Content-Length: 9"
    ++ CRLFCRLF in
  let before := [lit "content-length: 1"; lit "Content-Type: x:y"] in
  let after := [lit "Content-Length: 9"; []; []] in
  decode_utf8 header = Return header /\
  split CRLF header = before ++ lit "Content-Length: 7 :8" :: after /\
  parse_content_length int_of_ascii header = Return 7.
Proof.
  cbv zeta.
  split; [reflexivity|].
  split; [reflexivity|].
  destruct (content_length_first_line int_of_ascii
              (lit "content-length: 1" ++ CRLF ++ lit "Content-Type: x:y"
               ++ CRLF ++ lit "Content-Length: 7 :8" ++ CRLF
               ++ lit "Content-Length: 9" ++ CRLFCRLF)
              (lit "content-length: 1" ++ CRLF ++ lit "Content-Type: x:y"
               ++ CRLF ++ lit "Content-Length: 7 :8" ++ CRLF
               ++ lit "Content-Length: 9" ++ CRLFCRLF)
              [lit "content-length: 1"; lit "Content-Type: x:y"]
              [lit "Content-Length: 9"; []; []]
              (lit "Content-Length: 7 :8")
              eq_refl eq_refl)
    as (value & more & Hsplit & Hparse).
  - repeat constructor.
  - reflexivity.
  - injection Hsplit as <- <-. exact Hparse.
Defined.

(** X10: a header block with no line that starts with [Content-Length:]
    counts as a content length of 0: no body byte is read, the stream is
    left right after the header block, and the response is whatever
    [json.loads] makes of the empty text. *)
Theorem receive_without_content_length
    (py_int : pystr -> option Z) (json_loads : pystr -> option pyval)
    (s : socket) (chunks tl : list bytes) (text : pystr) :
  connected s = true ->
  inbound s = chunks ++ tl ->
  Forall (fun c => c <> []) chunks ->
  header_block (concat chunks) ->
  decode_utf8 (concat chunks) = Return text ->
  Forall (fun l => startswith (lit "Content-Length:") l = false)
         (split CRLF text) ->
  parse_content_length py_int (concat chunks) = Return 0
  /\ _receive_response py_int json_loads s
     = (match json_loads [] with
        | Some response => Return response
        | None => Raise JSONDecodeError
        end, peer_socket tl (outbound s)).
Proof.
  intros Hconn Hin Hne Hblock Hdec Hlines.
  assert (Hparse : parse_content_length py_int (concat chunks) = Return 0).
  { unfold parse_content_length. rewrite Hdec. cbn [bind].
    rewrite <- (app_nil_r (split CRLF text)).
    now rewrite scan_lines_skips. }
  split; [exact Hparse|].
  rewrite (connected_socket s Hconn), Hin.
  unfold _receive_response.
  destruct (read_header_stops tl (outbound s) (concat chunks) []
              (S (pending (peer_socket (chunks ++ tl) (outbound s))))
              Hblock chunks [] (concat chunks) Hne eq_refl)
    as (chunks' & Hread & Hne' & Hcat').
  { now rewrite app_nil_r. }
  { unfold pending, peer_socket; cbn [inbound].
    rewrite concat_app, length_app. lia. }
  assert (chunks' = []) as ->.
  { destruct chunks' as [|c chunks']; [reflexivity|].
    inversion Hne' as [|? ? Hc _]; subst.
    simpl in Hcat'. apply app_eq_nil in Hcat' as [-> _]. now elim Hc. }
  rewrite Hread, Hparse. reflexivity.
Qed.

Lemma receive_without_content_length_witness :
  let chunks := [lit "content-length: 4" ++ CRLF; lit "X-Id: 1" ++ CRLFCRLF] in
  let s := peer_socket (chunks ++ [lit "null"]) [] in
  Forall (fun c : bytes => c <> []) chunks /\
  header_block (concat chunks) /\
  decode_utf8 (concat chunks) = Return (concat chunks) /\
  _receive_response int_of_ascii loads_small s
  = (Raise JSONDecodeError, peer_socket [lit "null"] []).
Proof.
  cbv zeta.
  assert (Hne : Forall (fun c : bytes => c <> [])
                  [lit "content-length: 4" ++ CRLF;
                   lit "X-Id: 1" ++ CRLFCRLF]).
  { repeat constructor; discriminate. }
  assert (Hblock : header_block
                     (concat [lit "content-length: 4" ++ CRLF;
                              lit "X-Id: 1" ++ CRLFCRLF])).
  { split; reflexivity. }
  split; [exact Hne|].
  split; [exact Hblock|].
  split; [reflexivity|].
  refine (proj2
            (receive_without_content_length int_of_ascii loads_small
               (peer_socket
                  ([lit "content-length: 4" ++ CRLF;
                    lit "X-Id: 1" ++ CRLFCRLF] ++ [lit "null"]) [])
               [lit "content-length: 4" ++ CRLF; lit "X-Id: 1" ++ CRLFCRLF]
               [lit "null"]
               (concat [lit "content-length: 4" ++ CRLF;
                        lit "X-Id: 1" ++ CRLFCRLF])
               eq_refl eq_refl Hne Hblock eq_refl _)).
  repeat constructor.
Defined.

(** ** What is written is read back *)

Lemma decimal_digits_chars (d : Decimal.uint) :
  Forall digit_or_minus (lit (NilEmpty.string_of_uint d)).
Proof.
  unfold lit.
  induction d; simpl; try apply Forall_nil;
    (apply Forall_cons; [unfold digit_or_minus; right; lia|assumption]).
Qed.

Lemma py_str_int_chars (z : Z) : Forall digit_or_minus (py_str_int z).
Proof.
  unfold py_str_int, NilZero.string_of_int.
  assert (H : forall d, Forall digit_or_minus
                          (lit (NilZero.string_of_uint d))).
  { intros d. unfold NilZero.string_of_uint.
    destruct d; try apply decimal_digits_chars.
    apply Forall_cons; [unfold digit_or_minus; right; simpl; lia|].
    apply Forall_nil. }
  destruct (Z.to_int z) as [d|d].
  - apply H.
  - unfold lit in *. simpl.
    apply Forall_cons; [unfold digit_or_minus; now left|apply H].
Qed.

Lemma digits_without (x : N) (d : pystr) :
  Forall digit_or_minus d -> ~ digit_or_minus x -> ~ In x d.
Proof.
  intros Hd Hx Hin. rewrite Forall_forall in Hd. exact (Hx (Hd x Hin)).
Qed.

Lemma lstrip_nothing (d : pystr) :
  Forall (fun c => is_space c = false) d -> lstrip d = d.
Proof.
  intros H. destruct H as [|c d Hc _]; [reflexivity|].
  simpl. now rewrite Hc.
Qed.

Lemma digit_not_space (c : N) : digit_or_minus c -> is_space c = false.
Proof.
  unfold digit_or_minus, is_space. intros [-> | H]; [reflexivity|].
  repeat match goal with
         | |- context [(?a <=? ?b)%N] =>
             destruct (N.leb_spec a b)
         | |- context [(?a =? ?b)%N] =>
             destruct (N.eqb_spec a b)
         end; try reflexivity; lia.
Qed.

(** [" 123".strip()] *)
Lemma strip_digits (d : pystr) :
  Forall digit_or_minus d -> strip (32%N :: d) = d.
Proof.
  intros Hd.
  assert (Hs : Forall (fun c => is_space c = false) d).
  { eapply Forall_impl; [|exact Hd]. exact digit_not_space. }
  unfold strip. cbn [lstrip]. change (is_space 32) with true. cbv iota.
  rewrite (lstrip_nothing d Hs).
  rewrite lstrip_nothing by (apply Forall_rev; exact Hs).
  apply rev_involutive.
Qed.

Lemma substring_suffix (p a : pystr) : substring p (a ++ p) = true.
Proof.
  induction a as [|c a IH].
  - destruct p as [|x p]; [reflexivity|].
    cbn [app substring].
    rewrite <- (app_nil_r (x :: p)) at 2. now rewrite startswith_self.
  - cbn [app substring]. rewrite IH. apply orb_true_r.
Qed.

(** Text with no carriage return, then [\r\n\r\n]: a header block. *)
Lemma header_block_plain (a : pystr) :
  ~ In 13%N a -> header_block (a ++ CRLFCRLF).
Proof.
  intros Ha. split; [apply substring_suffix|].
  unfold CRLFCRLF.
  rewrite removelast_app by discriminate. cbn [removelast].
  induction a as [|c a IH]; [reflexivity|].
  cbn [app substring startswith].
  assert (Hc : (13 =? c)%N = false).
  { apply N.eqb_neq. intros <-. apply Ha. now left. }
  rewrite Hc. cbn [andb orb]. apply IH. intros H. apply Ha. now right.
Qed.

(** The header [_send_message] writes is one [_receive_response] parses
    back to the same number, when [int()] reads what [str()] printed. *)
Lemma parse_written_header (py_int : pystr -> option Z) (n : Z) :
  py_int (py_str_int n) = Some n ->
  parse_content_length py_int
    (lit "Content-Length: " ++ py_str_int n ++ CRLFCRLF) = Return n.
Proof.
  intros Hint.
  pose proof (py_str_int_chars n) as Hd.
  assert (H13 : ~ In 13%N (lit "Content-Length: " ++ py_str_int n)).
  { intros H. apply in_app_or in H as [H|H].
    - unfold lit in H. simpl in H.
      repeat (destruct H as [H|H]; [discriminate|]). exact H.
    - revert H. apply digits_without; [exact Hd|].
      unfold digit_or_minus. lia. }
  unfold parse_content_length.
  rewrite decode_utf8_ascii.
  2:{ apply ascii_only_app; [ascii_literal|].
      apply ascii_only_app; [apply py_str_int_ascii|ascii_literal]. }
  cbn [bind]. unfold split.
  change (lit "Content-Length: " ++ py_str_int n ++ CRLFCRLF)
    with (lit "Content-Length: " ++ py_str_int n ++ (13%N :: [10%N])
          ++ CRLF).
  rewrite (app_assoc (lit "Content-Length: ")).
  unfold CRLF at 1.
  rewrite split_from_until by exact H13.
  cbn [app scan_lines].
  change (lit "Content-Length: " ++ py_str_int n)
    with (lit "Content-Length:" ++ 32%N :: py_str_int n).
  rewrite startswith_self.
  unfold split.
  change (lit "Content-Length:" ++ 32%N :: py_str_int n)
    with (lit "Content-Length" ++ (58%N :: []) ++ 32%N :: py_str_int n).
  change (lit ":") with (58%N :: []).
  rewrite split_from_until.
  2:{ intros H. unfold lit in H. simpl in H.
      repeat (destruct H as [H|H]; [discriminate|]). exact H. }
  rewrite split_from_plain.
  2:{ intros [H|H]; [discriminate|]. revert H.
      apply digits_without; [exact Hd|]. unfold digit_or_minus. lia. }
  cbn [app]. rewrite (strip_digits _ Hd), Hint. reflexivity.
Qed.

Lemma send_message_connected
    (float_repr : spec_float -> pystr) (s s' : socket) (message : pyval) :
  _send_message float_repr s message = Return s' -> connected s = true.
Proof.
  unfold _send_message.
  destruct (encode_utf8 _) as [data|e]; [|discriminate].
  cbn [bind]. unfold sendall. destruct (connected s); [reflexivity|discriminate].
Qed.

(** X11: framing round trip.  Whatever [_send_message] writes for an
    envelope, [_receive_response] on a stream that delivers those bytes, in
    any chunking, hands [json.loads] exactly the [json.dumps] text of the
    envelope and stops at the end of the frame, provided [float.__repr__]
    prints ASCII and [int()] reads back what [str()] printed of the body's
    length. *)
Theorem frame_round_trip
    (float_repr : spec_float -> pystr) (py_int : pystr -> option Z)
    (json_loads : pystr -> option pyval)
    (message : pyval) (sender written receiver : socket)
    (chunks tl : list bytes) :
  (forall f, ascii_only (float_repr f)) ->
  py_int (py_str_int
            (Z.of_nat (List.length (json_dumps float_repr message))))
  = Some (Z.of_nat (List.length (json_dumps float_repr message))) ->
  outbound sender = [] ->
  _send_message float_repr sender message = Return written ->
  connected receiver = true ->
  inbound receiver = chunks ++ tl ->
  Forall (fun c => c <> []) chunks ->
  concat chunks = outbound written ->
  exists receiver' : socket,
    _receive_response py_int json_loads receiver
    = (match json_loads (json_dumps float_repr message) with
       | Some response => Return response
       | None => Raise JSONDecodeError
       end, receiver')
    /\ concat (inbound receiver') = concat tl.
Proof.
  intros Hrepr Hint Hempty Hsend Hconn Hin Hne Hcat.
  pose proof (send_message_connected _ _ _ _ Hsend) as Hsender.
  rewrite (send_message_text float_repr sender message Hrepr Hsender)
    in Hsend.
  injection Hsend as <-. cbn [outbound peer_socket] in Hcat.
  rewrite Hempty in Hcat. cbn [app] in Hcat.
  set (body := json_dumps float_repr message) in *.
  set (n := Z.of_nat (List.length body)) in *.
  pose proof (json_dumps_ascii float_repr Hrepr message) as Hbody.
  fold body in Hbody.
  assert (H13 : ~ In 13%N (lit "Content-Length: " ++ py_str_int n)).
  { intros H. apply in_app_or in H as [H|H].
    - unfold lit in H. simpl in H.
      repeat (destruct H as [H|H]; [discriminate|]). exact H.
    - revert H. apply digits_without; [apply py_str_int_chars|].
      unfold digit_or_minus. lia. }
  destruct (receive_frame_steps py_int json_loads receiver chunks tl
              (lit "Content-Length: " ++ py_str_int n ++ CRLFCRLF)
              body [] n Hconn Hin Hne)
    as (receiver' & Hread & Hleft & _).
  - rewrite Hcat. unfold frame. now rewrite app_nil_r, <- !app_assoc.
  - rewrite app_assoc. apply header_block_plain. exact H13.
  - apply parse_written_header. exact Hint.
  - reflexivity.
  - exists receiver'. split; [|exact Hleft].
    rewrite Hread, (decode_utf8_ascii body Hbody). reflexivity.
Qed.

Lemma frame_round_trip_witness :
  let wire := frame 2 (lit "{}") in
  let chunks := [firstn 5 wire; firstn 16 (skipn 5 wire); skipn 21 wire] in
  (forall f, ascii_only (repr_zero f)) /\
  int_of_ascii (py_str_int 2) = Some 2 /\
  _send_message repr_zero (peer_socket [] []) (PDict [])
  = Return (peer_socket [] wire) /\
  Forall (fun c : bytes => c <> []) chunks /\
  concat chunks = wire /\
  exists receiver' : socket,
    _receive_response int_of_ascii loads_small
      (peer_socket (chunks ++ [lit "next"]) [])
    = (Return (PDict []), receiver')
    /\ concat (inbound receiver') = concat [lit "next"].
Proof.
  cbv zeta.
  assert (Hne : Forall (fun c : bytes => c <> [])
                  [firstn 5 (frame 2 (lit "{}"));
                   firstn 16 (skipn 5 (frame 2 (lit "{}")));
                   skipn 21 (frame 2 (lit "{}"))]).
  { repeat constructor; discriminate. }
  split; [exact repr_zero_ascii|].
  split; [reflexivity|].
  split; [reflexivity|].
  split; [exact Hne|].
  split; [reflexivity|].
  exact (frame_round_trip repr_zero int_of_ascii loads_small (PDict [])
           (peer_socket [] []) (peer_socket [] (frame 2 (lit "{}")))
           (peer_socket
              ([firstn 5 (frame 2 (lit "{}"));
                firstn 16 (skipn 5 (frame 2 (lit "{}")));
                skipn 21 (frame 2 (lit "{}"))] ++ [lit "next"]) [])
           [firstn 5 (frame 2 (lit "{}"));
            firstn 16 (skipn 5 (frame 2 (lit "{}")));
            skipn 21 (frame 2 (lit "{}"))]
           [lit "next"]
           repr_zero_ascii eq_refl eq_refl eq_refl eq_refl eq_refl Hne
           eq_refl).
Defined.

(** ** Notifications, failed connections, the whole lifetime *)

(** X12: on a connected socket [send_notification] writes exactly one
    frame, whose body is the envelope with [jsonrpc], [method] and [params]
    and no [id], and does not read: the stream of pending responses and the
    request-id counter are left as they were. *)
Theorem send_notification_writes_one_frame
    (float_repr : spec_float -> pystr)
    (self : LspClient) (s : socket) (method : pystr) (params : pyval) :
  (forall f, ascii_only (float_repr f)) ->
  sock self = Some s ->
  connected s = true ->
  let body :=
    json_dumps float_repr
      (PDict [(lit "jsonrpc", PStr (lit "2.0"));
              (lit "method", PStr method);
              (lit "params", or_empty params)]) in
  send_notification float_repr self method params
  = (Return tt,
     {| host := host self; port := port self;
        sock := Some (peer_socket (inbound s)
                        (outbound s
                         ++ frame (Z.of_nat (List.length body)) body));
        request_id := request_id self |}).
Proof.
  intros Hrepr Hs Hconn body. unfold send_notification. rewrite Hs.
  rewrite (send_message_text float_repr s _ Hrepr Hconn). reflexivity.
Qed.

Lemma send_notification_writes_one_frame_witness :
  let s := peer_socket [lit "Content-Length: 4"] (lit "earlier") in
  let self := {| host := lit "localhost"; port := 2087; sock := Some s;
                 request_id := 3 |} in
  (forall f, ascii_only (repr_zero f)) /\
  connected s = true /\
  exists sent : bytes,
    send_notification repr_zero self (lit "exit") PNone
    = (Return tt,
       {| host := lit "localhost"; port := 2087;
          sock := Some (peer_socket [lit "Content-Length: 4"]
                          (lit "earlier" ++ sent));
          request_id := 3 |}).
Proof.
  cbv zeta.
  split; [exact repr_zero_ascii|].
  split; [reflexivity|].
  eexists.
  exact (send_notification_writes_one_frame repr_zero
           {| host := lit "localhost"; port := 2087;
              sock := Some (peer_socket [lit "Content-Length: 4"]
                              (lit "earlier"));
              request_id := 3 |}
           (peer_socket [lit "Content-Length: 4"] (lit "earlier"))
           (lit "exit") PNone repr_zero_ascii eq_refl eq_refl).
Defined.

(** X13: a [connect] whose connection attempt fails returns [False] but
    leaves the new, unconnected socket in [self.sock].  The next
    [send_request] therefore does not raise "Not connected": it takes the
    next id, fails in [sendall] with [OSError], and the id is spent. *)
Theorem request_after_connect_failure
    (float_repr : spec_float -> pystr) (py_int : pystr -> option Z)
    (json_loads : pystr -> option pyval)
    (self : LspClient) (method : pystr) (params : pyval) :
  (forall f, ascii_only (float_repr f)) ->
  let failed := connect self ConnectFails in
  fst failed = false /\
  sock (snd failed) <> None /\
  send_request float_repr py_int json_loads (snd failed) method params
  = (Raise OSError,
     {| host := host self; port := port self; sock := sock (snd failed);
        request_id := request_id self + 1 |}).
Proof.
  intros Hrepr failed. subst failed. cbn [connect fst snd].
  split; [reflexivity|]. split; [discriminate|].
  unfold send_request. cbn [sock host port request_id].
  unfold _send_message.
  rewrite encode_utf8_ascii.
  - reflexivity.
  - apply ascii_only_app; [|apply json_dumps_ascii; exact Hrepr].
    apply ascii_only_app; [ascii_literal|].
    apply ascii_only_app; [apply py_str_int_ascii|ascii_literal].
Qed.

Lemma request_after_connect_failure_witness :
  let self := __init__ (lit "localhost") 2087 in
  (forall f, ascii_only (repr_zero f)) /\
  fst (connect self ConnectFails) = false /\
  fst (send_request repr_zero int_of_ascii loads_small
         (snd (connect self ConnectFails)) (lit "initialize") PNone)
  = Raise OSError /\
  request_id
    (snd (send_request repr_zero int_of_ascii loads_small
            (snd (connect self ConnectFails)) (lit "initialize") PNone))
  = 1.
Proof.
  cbv zeta.
  pose proof (request_after_connect_failure repr_zero int_of_ascii
                loads_small (__init__ (lit "localhost") 2087)
                (lit "initialize") PNone repr_zero_ascii) as H.
  cbv zeta in H. destruct H as (Hfalse & _ & Hsend).
  split; [exact repr_zero_ascii|].
  split; [exact Hfalse|].
  rewrite Hsend. split; reflexivity.
Defined.

Section LifetimeFacts.

Variable float_repr : spec_float -> pystr.
Variable py_int : pystr -> option Z.
Variable json_loads : pystr -> option pyval.


Lemma disconnect_counter (self : LspClient) :
  request_id (disconnect self) = request_id self.
Proof.
  unfold disconnect. now destruct (sock self).
Qed.



End LifetimeFacts.



(** A lifetime, computed: the request before any connection and the one
    between [disconnect] and the second [connect] take no id; the second
    connection goes on from 2. *)
Example lifetime_across_reconnect :
  fst (lifetime repr_zero int_of_ascii loads_small
         [Call (Request (lit "early") PNone);
          Connect (Connects []);
          Call (Request (lit "initialize") PNone);
          Call (Notification (lit "initialized") PNone);
          Call (Request (lit "shutdown") PNone);
          Disconnect;
          Call (Request (lit "late") PNone);
          Connect ConnectFails;
          Call (Request (lit "initialize") PNone);
          Connect (Connects []);
          Call (Request (lit "initialize") PNone)]
         (__init__ (lit "localhost") 2087))
  = [1; 2; 3; 4].
Proof.
  vm_compute. reflexivity.
Qed.

(** * The compliance run *)

(** A passing verdict comes with a falsy error field and no issue. *)
Lemma validate_pass_shape
    (py_str : pyval -> pystr) (name : pystr)
    (result : list (pystr * pyval)) (schema : Schema)
    (issues : list pystr) :
  validate_schema py_str name result schema = Return (true, issues) ->
  issues = [] /\
  truthy (match dict_get (lit "error") result with
          | Some e => e
          | None => PNone
          end) = false.
Proof.
  unfold validate_schema.
  destruct (truthy _); [discriminate|].
  intros H. split; [|reflexivity]. revert H.
  destruct (match dict_get (lit "result") result with
            | Some r => r
            | None => PNone
            end);
    try (destruct (match nullable schema with Some b => b | None => false end);
         intros H; congruence);
    match goal with
    | |- bind ?m _ = _ -> _ =>
        destruct m as [found|e]; simpl; [|discriminate];
        destruct found; intros H; congruence
    end.
Qed.

(** Every descriptor of the table is nullable, and so is the fallback. *)
Lemma schema_for_nullable (method : pystr) :
  nullable (schema_for LSP_SCHEMAS method) = Some true.
Proof.
  unfold schema_for, LSP_SCHEMAS. cbn [table_get].
  repeat match goal with
         | |- context [if pystr_eqb method ?m then _ else _] =>
             destruct (pystr_eqb method m); [reflexivity|]
         end.
  reflexivity.
Qed.

Section ComplianceFacts.

Variable float_repr : spec_float -> pystr.
Variable py_int : pystr -> option Z.
Variable json_loads : pystr -> option pyval.
Variable py_str : pyval -> pystr.
Variable exn_str : raised -> pystr.

Local Abbreviation check :=
  (compliance.check float_repr py_int json_loads py_str exn_str).
Local Abbreviation probe :=
  (compliance.probe float_repr py_int json_loads py_str exn_str).
Local Abbreviation request := (send_request float_repr py_int json_loads).

Lemma check_row_method (client : LspClient) (method : pystr)
    (params : pyval) :
  fst (fst (fst (check client method params))) = method
  /\ snd (check client method params) = snd (request client method params).
Proof.
  unfold compliance.check.
  destruct (request client method params) as [[response|e] client'];
    cbn [fst snd]; [|now split].
  destruct response as [| | | | | |result]; try (now split).
  destruct (validate_schema _ _ _ _) as [[passed issues]|e]; [|now split].
  destruct (truthy _); [now split|].
  destruct passed; [|now split].
  destruct (match dict_get (lit "result") result with
            | Some r => r
            | None => PNone
            end) as [| | | | |[|[] later]|]; now split.
Qed.

(** The loop appends one row per probe, in order, spends one id per probe
    and keeps the socket. *)
Lemma probe_rows (todo : list (pystr * pyval)) :
  forall (client : LspClient) (results : list (pystr * bool * pystr)),
    sock client <> None ->
    map (fun row => fst (fst row)) (fst (probe client todo results))
    = map (fun row => fst (fst row)) results ++ map fst todo
    /\ request_id (snd (probe client todo results))
       = request_id client + Z.of_nat (List.length todo)
    /\ sock (snd (probe client todo results)) <> None.
Proof.
  induction todo as [|[method params] todo IH]; intros client results Hs.
  - cbn. rewrite app_nil_r. split; [reflexivity|]. split; [lia|exact Hs].
  - cbn [compliance.probe].
    destruct (check_row_method client method params) as [Hm Hc].
    destruct (check client method params) as [row client'].
    cbn [fst snd] in Hm, Hc. subst client'.
    destruct (send_request_counter float_repr py_int json_loads
                client method params Hs) as [Hid Hs'].
    destruct (IH (snd (request client method params)) (results ++ [row]) Hs')
      as (Hrows & Hcount & Hsock).
    split; [|split].
    + rewrite Hrows, map_app. cbn [map]. rewrite Hm, <- app_assoc.
      reflexivity.
    + rewrite Hcount, Hid. cbn [List.length]. lia.
    + exact Hsock.
Qed.

End ComplianceFacts.

(** X15: one turn of the compliance loop records exactly one row for the
    probed method, whatever the request returns or raises.  The row is
    marked passed exactly when the response is a JSON object that
    [validate_schema] passes against the method's descriptor (the
    permissive one for a method outside the table) and whose result is not
    an array starting with a non-object; its message is then
    ["Compliant"]. *)
Theorem compliance_row
    (float_repr : spec_float -> pystr) (py_int : pystr -> option Z)
    (json_loads : pystr -> option pyval) (py_str : pyval -> pystr)
    (exn_str : raised -> pystr)
    (client : LspClient) (method : pystr) (params : pyval) :
  let row :=
    fst (compliance.check float_repr py_int json_loads py_str exn_str
           client method params) in
  let sent :=
    fst (send_request float_repr py_int json_loads client method params) in
  fst (fst row) = method /\
  (snd (fst row) = true <->
   exists result : list (pystr * pyval),
     sent = Return (PDict result) /\
     validate_schema py_str method result (schema_for LSP_SCHEMAS method)
     = Return (true, []) /\
     first_item_has_keys (match dict_get (lit "result") result with
                          | Some r => r
                          | None => PNone
                          end) = true) /\
  (snd (fst row) = true -> snd row = lit "Compliant").
Proof.
  intros row sent. subst row sent. unfold compliance.check.
  destruct (send_request float_repr py_int json_loads client method params)
    as [[response|e] client']; cbn [fst snd].
  2:{ split; [reflexivity|]. split; [|discriminate].
      split; [discriminate|]. intros (result & H & _). discriminate. }
  destruct response as [| | | | | |result];
    try (split; [reflexivity|]; split; [|discriminate];
         split; [discriminate|]; intros (result & H & _); discriminate).
  destruct (validate_schema py_str method result
              (schema_for LSP_SCHEMAS method)) as [[passed issues]|e] eqn:Hv.
  2:{ split; [reflexivity|]. split; [|discriminate].
      split; [discriminate|].
      intros (result' & [= <-] & H & _). congruence. }
  destruct passed.
  - destruct (validate_pass_shape _ _ _ _ _ Hv) as [-> Herr].
    rewrite Herr.
    destruct (match dict_get (lit "result") result with
              | Some r => r
              | None => PNone
              end) as [| | | | |items|] eqn:Hres;
      try (cbn [fst snd]; split; [reflexivity|];
           split; [|intros _; reflexivity];
           split; [|intros _; reflexivity];
           intros _; exists result; rewrite Hres; now repeat split).
    destruct items as [|item later].
    { cbn [fst snd]. split; [reflexivity|].
      split; [|intros _; reflexivity].
      split; [|intros _; reflexivity].
      intros _. exists result. rewrite Hres. now repeat split. }
    destruct item; cbn [fst snd];
      try (split; [reflexivity|]; split; [|discriminate];
           split; [discriminate|];
           intros (result' & Hsame & _ & H);
           injection Hsame as <-; rewrite Hres in H; discriminate).
    split; [reflexivity|].
    split; [|intros _; reflexivity].
    split; [|intros _; reflexivity].
    intros _. exists result. rewrite Hres. now repeat split.
  - destruct (truthy _); cbn [fst snd];
      (split; [reflexivity|]); (split; [|discriminate]);
      (split; [discriminate|]);
      intros (result' & Hsame & H & _);
      injection Hsame as <-; congruence.
Qed.

(** X16: [run] always ends with the client disconnected.  When the
    connection succeeds it has one row per probe, for the twelve methods
    in order, whatever the server answers and even when every request
    raises, and has spent exactly twelve ids; when it fails there is no
    row and no id is spent. *)
Theorem compliance_run_shape
    (float_repr : spec_float -> pystr) (py_int : pystr -> option Z)
    (json_loads : pystr -> option pyval) (py_str : pyval -> pystr)
    (exn_str : raised -> pystr)
    (client : LspClient) (target_file : option pystr) (net : network) :
  let out :=
    compliance.run float_repr py_int json_loads py_str exn_str
      client target_file net in
  sock (snd out) = None /\
  match net with
  | Connects _ =>
      map (fun row => fst (fst row)) (fst out)
      = map fst (compliance.tests compliance.default_file)
      /\ request_id (snd out) = request_id client + 12
  | _ => fst out = [] /\ request_id (snd out) = request_id client
  end.
Proof.
  intros out. subst out. unfold compliance.run.
  destruct net as [| |peer]; cbn [connect negb fst snd].
  - split; [apply disconnect_no_socket|].
    split; [reflexivity|apply disconnect_counter].
  - split; [reflexivity|]. split; reflexivity.
  - match goal with
    | |- context [compliance.probe _ _ _ _ _ ?c ?t ?r] =>
        destruct (probe_rows float_repr py_int json_loads py_str exn_str
                    t c r) as (Hrows & Hcount & _);
          [discriminate|];
        destruct (compliance.probe float_repr py_int json_loads py_str
                    exn_str c t r) as [rows final]
    end.
    cbn [fst snd] in *.
    split; [apply disconnect_no_socket|]. split.
    + rewrite Hrows. reflexivity.
    + rewrite disconnect_counter, Hcount. reflexivity.
Qed.

(** X17: a null answer is compliant for every method: when the response to
    a probe is an object with no [error] whose [result] is null or absent,
    the row is [(method, True, "Compliant")], for the twelve methods of the
    table (all their descriptors are nullable) and for any other method
    (the fallback descriptor is). *)
Theorem compliance_null_passes
    (float_repr : spec_float -> pystr) (py_int : pystr -> option Z)
    (json_loads : pystr -> option pyval) (py_str : pyval -> pystr)
    (exn_str : raised -> pystr)
    (client : LspClient) (method : pystr) (params : pyval)
    (result : list (pystr * pyval)) :
  fst (send_request float_repr py_int json_loads client method params)
  = Return (PDict result) ->
  dict_get (lit "error") result = None ->
  dict_get (lit "result") result = None
    \/ dict_get (lit "result") result = Some PNone ->
  fst (compliance.check float_repr py_int json_loads py_str exn_str
         client method params)
  = (method, true, lit "Compliant").
Proof.
  intros Hsent Herr Hres. unfold compliance.check.
  destruct (send_request float_repr py_int json_loads client method params)
    as [sent client']. cbn [fst] in Hsent. subst sent. cbn [fst].
  unfold validate_schema. rewrite Herr. simpl truthy. cbv iota.
  rewrite schema_for_nullable.
  destruct Hres as [-> | ->]; reflexivity.
Qed.

Lemma compliance_null_passes_witness :
  let client :=
    snd (connect (__init__ (lit "localhost") 2087)
           (Connects [lit "Content-Length: 2" ++ CRLFCRLF ++ lit "{}"])) in
  fst (send_request repr_zero int_of_ascii loads_small client
         (lit "textDocument/rename") PNone)
  = Return (PDict []) /\
  fst (compliance.check repr_zero int_of_ascii loads_small
         (fun _ => []) (fun _ => []) client (lit "textDocument/rename") PNone)
  = (lit "textDocument/rename", true, lit "Compliant").
Proof.
  cbv zeta.
  split; [reflexivity|].
  exact (compliance_null_passes repr_zero int_of_ascii loads_small
           (fun _ => []) (fun _ => [])
           (snd (connect (__init__ (lit "localhost") 2087)
                   (Connects
                      [lit "Content-Length: 2" ++ CRLFCRLF ++ lit "{}"])))
           (lit "textDocument/rename") PNone []
           eq_refl eq_refl (or_introl eq_refl)).
Defined.

(** * Ranking the code actions *)

Section RankingFacts.

Variable py_lower : pystr -> pystr.

Local Abbreviation score := (resolve_action._score_action py_lower).
Local Abbreviation keyed := (resolve_action.keyed py_lower).

Lemma keyed_spec (l : list pyval) :
  forall ks, keyed l = Done ks ->
             map snd ks = l /\
             Forall (fun p => score (snd p) = Done (fst p)) ks.
Proof.
  induction l as [|a l IH]; intros ks; cbn [resolve_action.keyed].
  - intros [= <-]. split; [reflexivity|constructor].
  - destruct (score a) as [k|e] eqn:Hk; [|discriminate].
    destruct (keyed l) as [ks'|e]; [|discriminate].
    intros [= <-]. destruct (IH ks' eq_refl) as [Hmap Hall].
    split; [cbn; now rewrite Hmap|].
    constructor; [exact Hk|exact Hall].
Qed.

Lemma insert_desc_perm (x : Z * pyval) (l : list (Z * pyval)) :
  Permutation (resolve_action.insert_desc x l) (x :: l).
Proof.
  induction l as [|y l IH]; cbn [resolve_action.insert_desc].
  - apply Permutation_refl.
  - destruct (fst y <=? fst x); [apply Permutation_refl|].
    apply perm_trans with (y :: x :: l); [now apply perm_skip|apply perm_swap].
Qed.

Lemma sorted_desc_perm (l : list (Z * pyval)) :
  Permutation (resolve_action.sorted_desc l) l.
Proof.
  induction l as [|x l IH]; [apply Permutation_refl|].
  cbn [resolve_action.sorted_desc fold_right].
  apply perm_trans with (x :: resolve_action.sorted_desc l).
  - apply insert_desc_perm.
  - now apply perm_skip.
Qed.

Lemma insert_desc_sorted (x : Z * pyval) (l : list (Z * pyval)) :
  StronglySorted (fun p q => fst p >= fst q) l ->
  StronglySorted (fun p q => fst p >= fst q) (resolve_action.insert_desc x l).
Proof.
  induction 1 as [|y l Hl IH Hy]; cbn [resolve_action.insert_desc].
  - constructor; constructor.
  - destruct (Z.leb_spec (fst y) (fst x)) as [Hle|Hgt].
    + constructor; [constructor; assumption|].
      constructor; [lia|].
      eapply Forall_impl; [|exact Hy]. cbn. intros q Hq. lia.
    + constructor; [exact IH|].
      eapply Permutation_Forall; [symmetry; apply insert_desc_perm|].
      constructor; [lia|exact Hy].
Qed.

Lemma sorted_desc_sorted (l : list (Z * pyval)) :
  StronglySorted (fun p q => fst p >= fst q) (resolve_action.sorted_desc l).
Proof.
  induction l as [|x l IH]; [constructor|].
  cbn [resolve_action.sorted_desc fold_right]. now apply insert_desc_sorted.
Qed.

Lemma keys_sorted (l : list (Z * pyval)) :
  StronglySorted (fun p q => fst p >= fst q) l ->
  StronglySorted Z.ge (map fst l).
Proof.
  induction 1 as [|y l Hl IH Hy]; cbn [map]; constructor; [exact IH|].
  apply Forall_map. exact Hy.
Qed.

Lemma candidates_pool (actions : list pyval) :
  let with_data := filter resolve_action.has_data actions in
  let quickfixes := filter resolve_action.is_quickfix with_data in
  resolve_action.candidates actions
  = match quickfixes, with_data with
    | _ :: _, _ => quickfixes
    | [], _ :: _ => with_data
    | [], [] => actions
    end.
Proof.
  reflexivity.
Qed.

End RankingFacts.

(** X18: whenever [_score_action] returns, an action whose
    [data.actionType] is ["quickfix"] scores between 50 and 140 and any
    other between -50 and 40, whatever its title and kind: in the ranking,
    every action of quickfix type stands before every other one. *)
Theorem quickfix_type_outranks
    (py_lower : pystr -> pystr) (a : list (pystr * pyval)) (points : Z) :
  resolve_action._score_action py_lower (PDict a) = Done points ->
  if resolve_action.is_text (resolve_action.action_type_of a) (lit "quickfix")
  then 50 <= points <= 140
  else -50 <= points <= 40.
Proof.
  unfold resolve_action._score_action.
  destruct (resolve_action.or_blank (dict_get (lit "title") a));
    try discriminate.
  repeat match goal with
         | |- context [if ?b then _ else _] => destruct b
         end;
    intros [= <-]; lia.
Qed.

Lemma quickfix_type_outranks_witness :
  let a := [(lit "title", PStr (lit "Create test"));
            (lit "kind", PStr (lit "refactor"));
            (lit "data", PDict [(lit "actionType", PStr (lit "quickfix"))])] in
  let lower := fun s : pystr =>
    map (fun c => if ((65 <=? c) && (c <=? 90))%N then (c + 32)%N else c) s in
  resolve_action._score_action lower (PDict a) = Done 50 /\
  50 <= 50 <= 140.
Proof.
  cbv zeta.
  split; [reflexivity|].
  exact (quickfix_type_outranks
           (fun s : pystr =>
              map (fun c => if ((65 <=? c) && (c <=? 90))%N
                            then (c + 32)%N else c) s)
           [(lit "title", PStr (lit "Create test"));
            (lit "kind", PStr (lit "refactor"));
            (lit "data",
             PDict [(lit "actionType", PStr (lit "quickfix"))])]
           50 eq_refl).
Defined.

(** X19: when [_pick_candidates] returns, its list is a rearrangement of
    the candidates (the quickfixes with data if there is one, else the
    actions with data if there is one, else all the actions), with nothing
    dropped or repeated, in descending order of [_score_action]. *)
Theorem pick_candidates_sorted
    (py_lower : pystr -> pystr) (actions picked : list pyval) :
  resolve_action._pick_candidates py_lower actions = Done picked ->
  Permutation picked (resolve_action.candidates actions) /\
  exists points : list Z,
    Forall2 (fun a k => resolve_action._score_action py_lower a = Done k)
            picked points
    /\ StronglySorted Z.ge points.
Proof.
  unfold resolve_action._pick_candidates.
  destruct (resolve_action.keyed py_lower
              (resolve_action.candidates actions)) as [ks|e] eqn:Hk;
    [|discriminate].
  intros [= <-].
  destruct (keyed_spec py_lower _ _ Hk) as [Hmap Hall].
  split.
  - rewrite <- Hmap. apply Permutation_map. apply sorted_desc_perm.
  - exists (map fst (resolve_action.sorted_desc ks)). split.
    + assert (Hs : Forall (fun p => resolve_action._score_action py_lower
                                      (snd p) = Done (fst p))
                          (resolve_action.sorted_desc ks)).
      { eapply Permutation_Forall;
          [symmetry; apply sorted_desc_perm|exact Hall]. }
      induction Hs as [|p l Hp _ IH]; cbn [map]; constructor; assumption.
    + apply keys_sorted, sorted_desc_sorted.
Qed.

Lemma pick_candidates_sorted_witness :
  let lower := fun s : pystr => s in
  let plain := PDict [(lit "title", PStr (lit "rename"))] in
  let fix_val :=
    PDict [(lit "title", PStr (lit "remove val"));
           (lit "data", PDict [(lit "actionType", PStr (lit "quickfix"))])] in
  let fix_test :=
    PDict [(lit "title", PStr (lit "create test"));
           (lit "data", PDict [(lit "actionType", PStr (lit "quickfix"))])] in
  resolve_action._pick_candidates lower [plain; fix_test; fix_val]
  = Done [fix_val; fix_test] /\
  Permutation [fix_val; fix_test]
    (resolve_action.candidates [plain; fix_test; fix_val]).
Proof.
  cbv zeta.
  split; [reflexivity|].
  exact (proj1
           (pick_candidates_sorted (fun s : pystr => s)
              [PDict [(lit "title", PStr (lit "rename"))];
               PDict [(lit "title", PStr (lit "create test"));
                      (lit "data",
                       PDict [(lit "actionType", PStr (lit "quickfix"))])];
               PDict [(lit "title", PStr (lit "remove val"));
                      (lit "data",
                       PDict [(lit "actionType", PStr (lit "quickfix"))])]]
              [PDict [(lit "title", PStr (lit "remove val"));
                      (lit "data",
                       PDict [(lit "actionType", PStr (lit "quickfix"))])];
               PDict [(lit "title", PStr (lit "create test"));
                      (lit "data",
                       PDict [(lit "actionType", PStr (lit "quickfix"))])]]
              eq_refl)).
Defined.

(** X20: [_pick_candidates] only ever returns actions it was given, and it
    narrows them: if some action carries data, every action returned
    carries data; if some action carrying data is of quickfix type, every
    action returned is. *)
Theorem pick_candidates_narrows
    (py_lower : pystr -> pystr) (actions picked : list pyval) :
  resolve_action._pick_candidates py_lower actions = Done picked ->
  (forall a, In a picked -> In a actions) /\
  ((exists q, In q actions /\ resolve_action.has_data q = true) ->
   forall a, In a picked -> resolve_action.has_data a = true) /\
  ((exists q, In q actions /\ resolve_action.has_data q = true
              /\ resolve_action.is_quickfix q = true) ->
   forall a, In a picked ->
             resolve_action.has_data a = true
             /\ resolve_action.is_quickfix a = true).
Proof.
  unfold resolve_action._pick_candidates.
  destruct (resolve_action.keyed py_lower
              (resolve_action.candidates actions)) as [ks|e] eqn:Hk;
    [|discriminate].
  intros [= <-].
  destruct (keyed_spec py_lower _ _ Hk) as [Hmap _].
  assert (Hin : forall a,
             In a (map snd (resolve_action.sorted_desc ks)) ->
             In a (resolve_action.candidates actions)).
  { intros a Ha. rewrite <- Hmap.
    eapply Permutation_in; [|exact Ha].
    apply Permutation_map, sorted_desc_perm. }
  clear Hk Hmap.
  unfold resolve_action.candidates in Hin.
  set (with_data := filter resolve_action.has_data actions) in *.
  set (quickfixes := filter resolve_action.is_quickfix with_data) in *.
  split; [|split].
  - intros a Ha. specialize (Hin a Ha).
    destruct quickfixes as [|q qs] eqn:Hq.
    + destruct with_data as [|w ws] eqn:Hw; [exact Hin|].
      rewrite <- Hw in Hin. now apply filter_In in Hin.
    + rewrite <- Hq in Hin. apply filter_In in Hin as [Hin _].
      now apply filter_In in Hin.
  - intros (q & Hq & Hdata) a Ha. specialize (Hin a Ha).
    assert (Hw : In q with_data) by (apply filter_In; now split).
    destruct quickfixes as [|q' qs] eqn:Hqs.
    + destruct with_data as [|w ws] eqn:Hw'; [now elim Hw|].
      rewrite <- Hw' in Hin. now apply filter_In in Hin.
    + rewrite <- Hqs in Hin. apply filter_In in Hin as [Hin _].
      now apply filter_In in Hin.
  - intros (q & Hq & Hdata & Hfix) a Ha. specialize (Hin a Ha).
    assert (Hw : In q quickfixes).
    { apply filter_In. split; [|exact Hfix]. apply filter_In. now split. }
    destruct quickfixes as [|q' qs] eqn:Hqs; [now elim Hw|].
    rewrite <- Hqs in Hin. apply filter_In in Hin as [Hin Hf].
    apply filter_In in Hin as [_ Hd]. now split.
Qed.

Lemma pick_candidates_narrows_witness :
  let plain := PDict [(lit "title", PStr (lit "rename"))] in
  let with_data :=
    PDict [(lit "title", PStr (lit "remove val"));
           (lit "data", PDict [(lit "id", PInt 7)])] in
  resolve_action._pick_candidates (fun s => s) [plain; with_data]
  = Done [with_data] /\
  forall a, In a [with_data] -> In a [plain; with_data].
Proof.
  cbv zeta.
  split; [reflexivity|].
  exact (proj1
           (pick_candidates_narrows (fun s : pystr => s)
              [PDict [(lit "title", PStr (lit "rename"))];
               PDict [(lit "title", PStr (lit "remove val"));
                      (lit "data", PDict [(lit "id", PInt 7)])]]
              [PDict [(lit "title", PStr (lit "remove val"));
                      (lit "data", PDict [(lit "id", PInt 7)])]]
              eq_refl)).
Defined.
